(** * WJEDA: the MET Museum artwork explorer (streamlit_app.py)

    A shallow embedding of the three pieces of [streamlit_app.py] (the search
    client [search_met_artworks], the detail fetcher [get_artwork_details] and
    the presentation driver [main] / [display_artworks]) together with the
    Python values they manipulate, followed by the properties stated about
    them.

    Python values are an inductive type [pyval]; the effects of the program
    (HTTP requests, the memoization cache of [st.cache_data], the clock, the
    session state, what [st.image] makes of a source and everything written
    to the page) are threaded through a small state / trace / exception
    monad [M]. *)

From Stdlib Require Import ZArith NArith Lia Ascii String List.
From stdpp Require Import base decidable list strings gmap.

Set Warnings "-register-all".
Open Scope string_scope.
Open Scope list_scope.
Open Scope Z_scope.

(** ** Python values *)

(** A Python float, as far as the program looks at it: the only operation
    applied to a float is its truth value, which is [False] exactly for the
    two zeros. *)
Inductive pyfloat : Type :=
  | FNan
  | FInf (negative : bool)
  | FFinite (negative : bool) (mantissa : N) (exponent : Z).

(** The values that [response.json()] can produce, and [None].  A dictionary
    is kept as the list of its items in insertion order, a string as its
    UTF-8 encoding. *)
Inductive pyval : Type :=
  | PNone
  | PBool (b : bool)
  | PInt (n : Z)
  | PFloat (f : pyfloat)
  | PStr (s : string)
  | PList (items : list pyval)
  | PDict (items : list (string * pyval)).

#[global] Instance pyfloat_eq_dec : EqDecision pyfloat.
Proof. solve_decision. Defined.

Definition pyval_eq_dec : forall a b : pyval, {a = b} + {a <> b}.
Proof.
  fix IH 1.
  intros a b; destruct a, b; try (right; discriminate).
  - left; reflexivity.
  - destruct (decide (b0 = b)) as [->|NE]; [left; reflexivity | right; congruence].
  - destruct (decide (n = n0)) as [->|NE]; [left; reflexivity | right; congruence].
  - destruct (decide (f = f0)) as [->|NE]; [left; reflexivity | right; congruence].
  - destruct (decide (s = s0)) as [->|NE]; [left; reflexivity | right; congruence].
  - destruct (List.list_eq_dec IH items items0) as [->|NE];
      [left; reflexivity | right; congruence].
  - assert (forall p q : string * pyval, {p = q} + {p <> q}) as pair_dec.
    { intros [k v] [k' v'].
      destruct (decide (k = k')) as [->|NE]; [|right; congruence].
      destruct (IH v v') as [->|NE]; [left; reflexivity | right; congruence]. }
    destruct (List.list_eq_dec pair_dec items items0) as [->|NE];
      [left; reflexivity | right; congruence].
Defined.

#[global] Instance pyval_eq_decision : EqDecision pyval := pyval_eq_dec.

(** A string literal stands for the Python string. *)
Coercion PStr : string >-> pyval.


(** [bool(v)]: the truth value Python gives a value in a condition. *)
Definition float_truthy (f : pyfloat) : bool :=
  match f with
  | FFinite _ 0%N _ => false
  | _ => true
  end.

Definition py_truthy (v : pyval) : bool :=
  match v with
  | PNone => false
  | PBool b => b
  | PInt n => negb (Z.eqb n 0)
  | PFloat f => float_truthy f
  | PStr s => negb (String.eqb s "")
  | PList items => negb (Nat.eqb (length items) 0)
  | PDict items => negb (Nat.eqb (length items) 0)
  end.

(** Exceptions the program can meet; all of them derive from [Exception]. *)
Inductive exn : Type :=
  | RequestException (reason : string)   (* connection error, timeout, ... *)
  | JSONDecodeError                      (* [response.json()] on a bad body *)
  | AttributeError                       (* [.get] on a value that is no dict *)
  | TypeError                            (* slice or [len] of a wrong value *)
  | KeyError (key : string)
  | MediaFileStorageError (reason : string).  (* [st.image] on a path it cannot open *)

Inductive result (A : Type) : Type :=
  | Ok (a : A)
  | Raise (e : exn).
Arguments Ok {A} a.
Arguments Raise {A} e.

(** The binding of a key in a dictionary. *)
Fixpoint dict_lookup (key : string) (items : list (string * pyval)) : option pyval :=
  match items with
  | [] => None
  | (k, v) :: rest => if String.eqb k key then Some v else dict_lookup key rest
  end.

(** [v.get(key, default)] *)
Definition py_get (v : pyval) (key : string) (default : pyval) : result pyval :=
  match v with
  | PDict items =>
      match dict_lookup key items with
      | Some x => Ok x
      | None => Ok default
      end
  | _ => Raise AttributeError
  end.

(** [v[key]] for a string key, used on dictionaries only. *)
Definition py_getitem (v : pyval) (key : string) : result pyval :=
  match v with
  | PDict items =>
      match dict_lookup key items with
      | Some x => Ok x
      | None => Raise (KeyError key)
      end
  | _ => Raise TypeError
  end.

(** [xs[:n]] on a sequence: the first [n] items, and for a negative [n] all
    but the last [-n]. *)
Definition slice_to {A : Type} (n : Z) (xs : list A) : list A :=
  if Z.leb 0 n then take (Z.to_nat n) xs
  else take (Nat.sub (length xs) (Z.to_nat (Z.opp n))) xs.

(** The characters of a string.  Python counts, slices and iterates a
    string by code points; in the UTF-8 encoding a code point is a byte that
    is no continuation byte (10xxxxxx) followed by its continuation bytes. *)
Definition continuation (c : ascii) : bool :=
  match c with
  | Ascii _ _ _ _ _ _ b6 b7 => b7 && negb b6
  end.

Fixpoint characters (bytes : list ascii) : list (list ascii) :=
  match bytes with
  | [] => []
  | c :: rest =>
      match characters rest with
      | (c' :: following) :: later =>
          if continuation c' then (c :: c' :: following) :: later
          else [c] :: (c' :: following) :: later
      | later => [c] :: later
      end
  end.

Definition py_characters (s : string) : list (list ascii) :=
  characters (list_ascii_of_string s).

(** [v[:n]]: lists and strings can be sliced; a dictionary rejects the slice
    as a key (TypeError up to Python 3.11, KeyError from 3.12, both caught
    alike below), the other values are not subscriptable. *)
Definition py_slice_to (v : pyval) (n : Z) : result pyval :=
  match v with
  | PList items => Ok (PList (slice_to n items))
  | PStr s => Ok (PStr (string_of_list_ascii (concat (slice_to n (py_characters s)))))
  | _ => Raise TypeError
  end.

(** [len(v)] *)
Definition py_len (v : pyval) : result Z :=
  match v with
  | PList items => Ok (Z.of_nat (length items))
  | PStr s => Ok (Z.of_nat (length (py_characters s)))
  | PDict items => Ok (Z.of_nat (length items))
  | _ => Raise TypeError
  end.

(** The items a [for] loop runs over. *)
Definition py_iter (v : pyval) : result (list pyval) :=
  match v with
  | PList items => Ok items
  | PStr s => Ok (map (fun c => PStr (string_of_list_ascii c)) (py_characters s))
  | PDict items => Ok (map (fun kv => PStr (fst kv)) items)
  | _ => Raise TypeError
  end.

(** ** The world: network, clock, cache, session, page *)

(** The two endpoints of the collection API.  A search request carries the
    query (and the constant [hasImages] flag), an object request the
    identifier put into the URL. *)
Inductive request : Type :=
  | SearchRequest (q : pyval)
  | ObjectRequest (object_id : pyval).

(** What [requests.get] hands back: the status code, and the body as
    [response.json()] would parse it ([None] when the body is no JSON). *)
Record response : Type := Response {
  status_code : Z;
  json : option pyval
}.

(** One round trip: how long it took (milliseconds), and either a response
    or the exception of the transport layer. *)
Record reply : Type := Reply {
  elapsed : N;
  answer : result response
}.

(** The invocations of the two memoized functions, which are also the keys
    of their caches. *)
Inductive call : Type :=
  | CSearch (query : pyval) (limit : Z)
  | CDetails (object_id : pyval).

#[global] Instance call_eq_dec : EqDecision call.
Proof. solve_decision. Defined.

(** An f-string is kept as its pieces. *)
Inductive fragment : Type :=
  | FText (s : string)
  | FValue (v : pyval)
  | FExn (e : exn).

Definition message : Type := list fragment.

(** Everything observable that a run does, in order: the requests sent, the
    pauses, the elements written to the page, and (for counting) each
    return of a memoized function with the value it gave. *)
Inductive event : Type :=
  | EHttpGet (r : request)
  | ECall (c : call) (v : pyval)
  | ESleep (ms : N)
  | ETitle (s : string)
  | EHeader (s : string)
  | ESubheader (m : message)
  | EColumns (spec : list Z)
  | EButton (label : string)
  | ETextInput (label : string)
  | ESpinner (s : string)
  | EError (m : message)
  | EWarning (m : message)
  | EInfo (m : message)
  | EPlaceholder
  | EStatusText (m : message)
  | EStatusEmpty
  | EProgress (num den : Z)
  | EProgressEmpty
  | EImage (src caption : pyval)
  | EWrite (m : message)
  | EExpander (label : string)
  | EMarkdown (s : string).

(** An entry of [st.cache_data]: the value, when it was stored, and the
    elements the function wrote while computing it, which Streamlit shows
    again on every hit.  The memoized functions of this program write
    nothing but [st.error], so an entry keeps error messages. *)
Record entry : Type := Entry {
  stored_at : N;
  value : pyval;
  notices : list message
}.

Record state : Type := State {
  clock : N;                                (* milliseconds *)
  requests_made : nat;
  network : nat -> request -> reply;        (* the n-th request's fate *)
  image_error : pyval -> pyval -> option exn;
                        (* what [st.image] raises for a source and a caption *)
  cache : list (call * entry);
  session_state : gmap string pyval
}.

Definition set_clock (t : N) (s : state) : state :=
  State t (requests_made s) (network s) (image_error s) (cache s) (session_state s).
Definition set_requests_made (n : nat) (s : state) : state :=
  State (clock s) n (network s) (image_error s) (cache s) (session_state s).
Definition set_cache (c : list (call * entry)) (s : state) : state :=
  State (clock s) (requests_made s) (network s) (image_error s) c (session_state s).
Definition set_session_state (m : gmap string pyval) (s : state) : state :=
  State (clock s) (requests_made s) (network s) (image_error s) (cache s) m.

(** ** The monad of the program *)

Definition M (A : Type) : Type := state -> result A * state * list event.

Definition ret {A : Type} (a : A) : M A := fun s => (Ok a, s, []).

Definition bind {A B : Type} (m : M A) (k : A -> M B) : M B := fun s =>
  match m s with
  | (Ok a, s1, t1) => let '(r, s2, t2) := k a s1 in (r, s2, t1 ++ t2)
  | (Raise e, s1, t1) => (Raise e, s1, t1)
  end.

Definition raise {A : Type} (e : exn) : M A := fun s => (Raise e, s, []).

Definition lift {A : Type} (r : result A) : M A := fun s => (r, s, []).

(** [try: m except Exception as e: handler e] *)
Definition try_except {A : Type} (m : M A) (handler : exn -> M A) : M A := fun s =>
  match m s with
  | (Ok a, s1, t1) => (Ok a, s1, t1)
  | (Raise e, s1, t1) => let '(r, s2, t2) := handler e s1 in (r, s2, t1 ++ t2)
  end.

Definition emit (e : event) : M unit := fun s => (Ok tt, s, [e]).

Notation "'let!' x ':=' m 'in' k" := (bind m (fun x => k))
  (at level 10, x name, m at level 100, k at level 200).
Notation "m1 >> m2" := (bind m1 (fun _ => m2))
  (at level 65, right associativity).

Definition outcome {A : Type} (x : result A * state * list event) : result A := x.1.1.
Definition final {A : Type} (x : result A * state * list event) : state := x.1.2.
Definition trace {A : Type} (x : result A * state * list event) : list event := x.2.

(** A run with more events in front of its trace. *)
Definition prefixed {A : Type} (pre : list event) (x : result A * state * list event)
    : result A * state * list event :=
  (outcome x, final x, pre ++ trace x).

(** [for i, x in enumerate(xs, start)] with the loop's variable [acc]. *)
Fixpoint for_enumerate {A B : Type} (body : Z -> A -> B -> M B)
    (i : Z) (xs : list A) (acc : B) : M B :=
  match xs with
  | [] => ret acc
  | x :: rest => let! acc' := body i x acc in for_enumerate body (i + 1) rest acc'
  end.

(** ** The effects *)

(** [time.sleep] *)
Definition sleep (ms : N) : M unit := fun s =>
  (Ok tt, set_clock (clock s + ms)%N s, [ESleep ms]).

(** [requests.get]: one round trip, whose fate is the network's. *)
Definition requests_get (r : request) : M response := fun s =>
  let rep := network s (requests_made s) r in
  (answer rep,
   set_clock (clock s + elapsed rep)%N (set_requests_made (S (requests_made s)) s),
   [EHttpGet r]).

(** [response.json()] *)
Definition response_json (resp : response) : M pyval :=
  match json resp with
  | Some v => ret v
  | None => raise JSONDecodeError
  end.

Definition st_error (m : message) : M unit := emit (EError m).

(** [@st.cache_data(ttl=3600)]: 3600 seconds, in milliseconds. *)
Definition ttl : N := 3600000.

Fixpoint cache_lookup (c : call) (l : list (call * entry)) : option entry :=
  match l with
  | [] => None
  | (c', e) :: rest => if decide (c' = c) then Some e else cache_lookup c rest
  end.

Definition fresh (now : N) (e : entry) : bool := (now <? stored_at e + ttl)%N.

Definition cache_hit (c : call) (s : state) : option entry :=
  match cache_lookup c (cache s) with
  | Some e => if fresh (clock s) e then Some e else None
  | None => None
  end.

Definition errors_of (t : list event) : list message :=
  omap (fun e => match e with EError m => Some m | _ => None end) t.

(** Modelled from the spec: the implementation of [st.cache_data] belongs to
    Streamlit and is not among the sources, which only carry the annotation
    [@st.cache_data(ttl=3600)].  The result of a call is memoized per
    arguments for one hour: a fresh entry answers the call without running
    the function (showing again, as Streamlit does, the elements the function
    wrote when the entry was made); otherwise the function runs, and its
    value is stored unless it raised. *)
Definition cache_data (c : call) (body : M pyval) : M pyval := fun s =>
  match cache_hit c s with
  | Some e => (Ok (value e), s, map EError (notices e) ++ [ECall c (value e)])
  | None =>
      match body s with
      | (Ok v, s1, t1) =>
          (Ok v,
           set_cache ((c, Entry (clock s1) v (errors_of t1)) :: cache s1) s1,
           t1 ++ [ECall c v])
      | (Raise e, s1, t1) => (Raise e, s1, t1)
      end
  end.

(** ** The search client *)

Definition search_body (query : pyval) (limit : Z) : M pyval :=
  try_except
    (let! resp := requests_get (SearchRequest query) in
     if Z.eqb (status_code resp) 200 then
       let! data := response_json resp in
       let! object_ids := lift (py_get data "objectIDs" (PList [])) in
       lift (py_slice_to object_ids limit)
     else
       st_error [FText "API请求失败: "; FValue (PInt (status_code resp))] >>
       ret (PList []))
    (fun e =>
       st_error [FText "搜索时发生错误: "; FExn e] >>
       ret (PList [])).

Definition search_met_artworks (query : pyval) (limit : Z) : M pyval :=
  cache_data (CSearch query limit) (search_body query limit).

(** ** The detail fetcher *)

Definition details_body (object_id : pyval) : M pyval :=
  try_except
    (let! resp := requests_get (ObjectRequest object_id) in
     if Z.eqb (status_code resp) 200 then
       response_json resp
     else
       ret PNone)
    (fun e =>
       st_error [FText "获取艺术品详情时发生错误: "; FExn e] >>
       ret PNone).

Definition get_artwork_details (object_id : pyval) : M pyval :=
  cache_data (CDetails object_id) (details_body object_id).

(** ** The presentation driver *)

Definition no_artworks_found : event :=
  EWarning [FText "No artworks found. Please try a different search term."].
Definition no_images_found : event :=
  EWarning [FText "No artworks with images found."].
Definition image_not_available : event :=
  EInfo [FText "🖼️ Image not available"].

Definition loading (i : Z) : event :=
  EStatusText [FText "Loading artwork "; FValue (PInt (i + 1)); FText "/6..."].

(** The body of the loop that fetches the details. *)
Definition fetch_step (i : Z) (artwork_id : pyval) (artworks : list pyval)
    : M (list pyval) :=
  emit (loading i) >>
  let! artwork := get_artwork_details artwork_id in
  let! keep :=
    (if py_truthy artwork then
       let! image := lift (py_get artwork "primaryImage" PNone) in
       ret (py_truthy image)
     else ret false) in
  emit (EProgress (i + 1) 6) >>
  sleep 100 >>
  ret (if keep then artworks ++ [artwork] else artworks).

(** [st.image]: Streamlit draws the source, or raises when it can make no
    image of it (a string that is neither a URL nor a file it can open, a
    value that is no image); which of the two is the world's. *)
Definition st_image (src caption : pyval) : M unit := fun s =>
  match image_error s src caption with
  | None => (Ok tt, s, [EImage src caption])
  | Some e => (Raise e, s, [])
  end.

(** One line of the "More Details" panel. *)
Definition write_if_present (artwork : pyval) (key label : string) : M unit :=
  let! v := lift (py_get artwork key PNone) in
  if py_truthy v then
    let! x := lift (py_getitem artwork key) in
    emit (EWrite [FText label; FValue x])
  else ret tt.

(** The body of the loop that renders the artworks; [n] is their number. *)
Definition render_step (n : Z) (i : Z) (artwork : pyval) (_ : unit) : M unit :=
  emit (EColumns [1; 2]) >>
  let! image := lift (py_get artwork "primaryImage" PNone) in
  (if py_truthy image then
     let! src := lift (py_getitem artwork "primaryImage") in
     let! caption := lift (py_get artwork "title" (PStr "Untitled")) in
     st_image src caption
   else emit image_not_available) >>
  let! title := lift (py_get artwork "title" (PStr "Unknown Title")) in
  let! artist := lift (py_get artwork "artistDisplayName" (PStr "Unknown Artist")) in
  let! year := lift (py_get artwork "objectDate" (PStr "Unknown Date")) in
  emit (EWrite [FText "**Title:** "; FValue title]) >>
  emit (EWrite [FText "**Artist:** "; FValue artist]) >>
  emit (EWrite [FText "**Year:** "; FValue year]) >>
  emit (EExpander "More Details") >>
  write_if_present artwork "medium" "**Medium:** " >>
  write_if_present artwork "dimensions" "**Dimensions:** " >>
  write_if_present artwork "department" "**Department:** " >>
  write_if_present artwork "culture" "**Culture:** " >>
  write_if_present artwork "classification" "**Classification:** " >>
  write_if_present artwork "creditLine" "**Credit Line:** " >>
  (if Z.ltb i (n - 1) then emit (EMarkdown "---") else ret tt).

(** The part of [display_artworks] that follows the search. *)
Definition show_results (artwork_ids : pyval) : M unit :=
  if negb (py_truthy artwork_ids) then
    emit no_artworks_found
  else
    let! found := lift (py_len artwork_ids) in
    emit (EInfo [FText "Found "; FValue (PInt found); FText " artworks"]) >>
    emit (EProgress 0 1) >>
    emit EPlaceholder >>
    let! first6 := lift (py_slice_to artwork_ids 6) in
    let! ids := lift (py_iter first6) in
    let! artworks := for_enumerate fetch_step 0 ids [] in
    emit EProgressEmpty >>
    emit EStatusEmpty >>
    match artworks with
    | [] => emit no_images_found
    | _ => for_enumerate (render_step (Z.of_nat (length artworks))) 0 artworks tt
    end.

Definition display_artworks (search_term : pyval) : M unit :=
  emit (ESubheader [FText "Search results for: '"; FValue search_term; FText "'"]) >>
  emit (ESpinner "Searching artworks...") >>
  let! artwork_ids := search_met_artworks search_term 20 in
  show_results artwork_ids.

Definition display_example_artworks : M unit :=
  emit (EInfo [FText "👆 Click one of the search buttons above or enter your own search term to explore artworks!"]) >>
  emit (EMarkdown "
    ### About this App
    
    This application allows you to explore artworks from The Metropolitan Museum of Art using their public API.
    
    **Features:**
    - Search thousands of artworks by keyword
    - View high-quality images
    - See detailed information about each artwork
    - Quick access to popular search terms
    
    **Try searching for:**
    - Renaissance
    - Impressionism  
    - Sculpture
    - Asian art
    - Modern art
    ").

(** What the widgets hand to one run of the script: which buttons were
    pressed since the last run, and the content of the text field. *)
Record widgets : Type := Widgets {
  flower_btn : bool;
  chinese_bird_btn : bool;
  custom_search : string;
  custom_search_btn : bool
}.

Definition get_session : M (gmap string pyval) := fun s => (Ok (session_state s), s, []).
Definition session_set (key : string) (v : pyval) : M unit := fun s =>
  (Ok tt, set_session_state (<[key := v]> (session_state s)) s, []).
Definition session_del (key : string) : M unit := fun s =>
  (Ok tt, set_session_state (delete key (session_state s)) s, []).

Definition nonempty (s : string) : bool := negb (String.eqb s "").

(** [st.button(label, key=key)]: the button is drawn, and Streamlit keeps
    its value in the session state under the key. *)
Definition st_button_keyed (label key : string) (pressed : bool) : M bool :=
  emit (EButton label) >>
  session_set key (PBool pressed) >>
  ret pressed.

Definition main (w : widgets) : M unit :=
  emit (ETitle "🎨 Explore Artworks with MET Museum API") >>
  emit (EHeader "Search for Artworks:") >>
  emit (EColumns [1; 1]) >>
  let! flower := st_button_keyed "🌼 **flower**" "flower_btn" (flower_btn w) in
  (if flower then session_set "search_term" "flower" else ret tt) >>
  let! bird :=
    st_button_keyed "🐦 **Chinese figure with bird**" "chinese_bird_btn"
      (chinese_bird_btn w) in
  (if bird then session_set "search_term" "Chinese figure with bird" else ret tt) >>
  emit (ESubheader [FText "Or search for other artworks:"]) >>
  emit (EColumns [3; 1]) >>
  emit (ETextInput "Enter keywords:") >>
  emit (EWrite [FText ""]) >>
  emit (EButton "Search") >>
  let! session := get_session in
  let! search_term :=
    (match session !! "search_term" with
     | Some term => session_del "search_term" >> ret term
     | None =>
         if custom_search_btn w && nonempty (custom_search w) then
           ret (PStr (custom_search w))
         else if nonempty (custom_search w) then
           ret (PStr (custom_search w))
         else ret PNone
     end) in
  (if py_truthy search_term then display_artworks search_term
   else display_example_artworks) >>
  emit (EMarkdown "---") >>
  emit (EMarkdown "Presented by Prof. Jahwan Koo") >>
  emit (EMarkdown "©2024 ANASHE HUT").

(** Streamlit runs the script again from the top on every interaction; an
    exception ends the run it occurs in, not the session, so the next run
    starts from the state the failed one left. *)
Fixpoint run_passes (ws : list widgets) (s : state) : state * list event :=
  match ws with
  | [] => (s, [])
  | w :: rest =>
      let '(_, s1, t1) := main w s in
      let '(s2, t2) := run_passes rest s1 in
      (s2, t1 ++ t2)
  end.

(** ** Vocabulary of the properties *)

(** A record is eligible for display when it is a dictionary whose
    [primaryImage] is present and true in a condition. *)
Definition has_image (v : pyval) : bool :=
  match v with
  | PDict items =>
      match dict_lookup "primaryImage" items with
      | Some image => py_truthy image
      | None => false
      end
  | _ => false
  end.

(** The contract of the detail fetcher: a record, or absent. *)
Definition record_or_absent (v : pyval) : Prop :=
  match v with
  | PNone | PDict _ => True
  | _ => False
  end.

(** The state after one round trip. *)
Definition after_request (rep : reply) (s : state) : state :=
  set_clock (clock s + elapsed rep)%N (set_requests_made (S (requests_made s)) s).

(** The state after a memoized function stored its value. *)
Definition after_store (c : call) (v : pyval) (errs : list message) (s : state) : state :=
  set_cache ((c, Entry (clock s) v errs) :: cache s) s.

(** Readings of a trace. *)
Definition http_gets (t : list event) : list request :=
  omap (fun e => match e with EHttpGet r => Some r | _ => None end) t.

Definition search_calls (t : list event) : list (pyval * Z) :=
  omap (fun e => match e with ECall (CSearch q l) _ => Some (q, l) | _ => None end) t.

Definition detail_calls (t : list event) : list pyval :=
  omap (fun e => match e with ECall (CDetails i) _ => Some i | _ => None end) t.

(** The values the detail fetcher returned, in order. *)
Definition fetched (t : list event) : list pyval :=
  omap (fun e => match e with ECall (CDetails _) v => Some v | _ => None end) t.

Definition object_requests (t : list event) : list pyval :=
  omap (fun e => match e with EHttpGet (ObjectRequest i) => Some i | _ => None end) t.

(** A fetched value that is dropped: absent, or a record without image. *)
Definition lacks_image (v : pyval) : Prop :=
  record_or_absent v /\ has_image v = false.

Definition is_dict (v : pyval) : bool :=
  match v with
  | PDict _ => true
  | _ => false
  end.

(** The fetched values on which [artwork.get] fails: true in a condition
    but no dictionary. *)
Definition crashing (v : pyval) : bool := py_truthy v && negb (is_dict v).

(** The pace of the fetch loop: what it fetches, reports and waits, with
    the values left out. *)
Inductive pace : Type :=
  | Fetch (object_id : pyval)
  | Progress (num den : Z)
  | Pause (ms : N).

Definition pace_of (e : event) : option pace :=
  match e with
  | ECall (CDetails object_id) _ => Some (Fetch object_id)
  | EProgress num den => Some (Progress num den)
  | ESleep ms => Some (Pause ms)
  | _ => None
  end.

(** One fetch, one progress update, one pause of 100 ms per identifier. *)
Fixpoint schedule (i : Z) (ids : list pyval) : list pace :=
  match ids with
  | [] => []
  | object_id :: rest =>
      Fetch object_id :: Progress (i + 1) 6 :: Pause 100 :: schedule (i + 1) rest
  end.

(** The events a memoized function produces before it returns. *)
Definition quiet (e : event) : bool :=
  match e with
  | EHttpGet _ | EError _ => true
  | _ => false
  end.


(** Every event of every run of [m] satisfies [P]. *)
Definition emits {A : Type} (P : event -> Prop) (m : M A) : Prop :=
  forall s, Forall P (trace (m s)).

(** Every value [m] returns satisfies [Q]. *)
Definition returns {A : Type} (Q : A -> Prop) (m : M A) : Prop :=
  forall s a, outcome (m s) = Ok a -> Q a.

(** [m] leaves the state as it was. *)
Definition unchanged {A : Type} (m : M A) : Prop :=
  forall s, final (m s) = s.

(** The elements of a rendered artwork. *)
Definition render_event (e : event) : bool :=
  match e with
  | EColumns _ | EImage _ _ | EWrite _ | EExpander _ | EMarkdown _ => true
  | _ => false
  end.

(** The events of a search, and those of the fetch loop. *)
Definition search_event (e : event) : bool :=
  match e with
  | EHttpGet (SearchRequest _) | ECall (CSearch _ _) _ | EError _ => true
  | _ => false
  end.

Definition loop_event (e : event) : bool :=
  match e with
  | EHttpGet (ObjectRequest _) | ECall (CDetails _) _ | EError _
  | EStatusText _ | EProgress _ _ | ESleep _ => true
  | _ => false
  end.

(** The first events of [display_artworks], and what [show_results]
    reports before the fetch loop. *)
Definition search_heading (search_term : pyval) : list event :=
  [ESubheader [FText "Search results for: '"; FValue search_term; FText "'"];
   ESpinner "Searching artworks..."].

Definition found_heading (ids : list pyval) : list event :=
  [EInfo [FText "Found "; FValue (PInt (Z.of_nat (length ids))); FText " artworks"];
   EProgress 0 1; EPlaceholder].

(** What [show_results] does with the artworks the loop kept. *)
Definition show_artworks (artworks : list pyval) : M unit :=
  match artworks with
  | [] => emit no_images_found
  | _ => for_enumerate (render_step (Z.of_nat (length artworks))) 0 artworks tt
  end.

(** [m] leaves the session state as it was. *)
Definition keeps_session {A : Type} (m : M A) : Prop :=
  forall s, session_state (final (m s)) = session_state s.

(** The pieces of one run of [main]: what it writes before and after the
    results, the session state once the preset buttons are handled, the
    search term it settles on, and what it shows for it. *)
Definition main_heading : list event :=
  [ETitle "🎨 Explore Artworks with MET Museum API";
   EHeader "Search for Artworks:";
   EColumns [1; 1];
   EButton "🌼 **flower**";
   EButton "🐦 **Chinese figure with bird**";
   ESubheader [FText "Or search for other artworks:"];
   EColumns [3; 1];
   ETextInput "Enter keywords:";
   EWrite [FText ""];
   EButton "Search"].

Definition main_footer : list event :=
  [EMarkdown "---"; EMarkdown "Presented by Prof. Jahwan Koo"; EMarkdown "©2024 ANASHE HUT"].

Definition presets (w : widgets) (session : gmap string pyval) : gmap string pyval :=
  let session1 := <["flower_btn" := PBool (flower_btn w)]> session in
  let session2 :=
    if flower_btn w then <["search_term" := PStr "flower"]> session1 else session1 in
  let session3 := <["chinese_bird_btn" := PBool (chinese_bird_btn w)]> session2 in
  if chinese_bird_btn w then <["search_term" := PStr "Chinese figure with bird"]> session3
  else session3.

Definition chosen_term (w : widgets) (session : gmap string pyval) : pyval :=
  match session !! "search_term" with
  | Some term => term
  | None => if nonempty (custom_search w) then PStr (custom_search w) else PNone
  end.

Definition page (search_term : pyval) : M unit :=
  if py_truthy search_term then display_artworks search_term
  else display_example_artworks.

(** A run of the script in which nothing is pressed and [text] is in the
    text field. *)
Definition refresh (text : string) : widgets := Widgets false false text false.

(** Time passing between two calls, in milliseconds. *)
Definition idle (d : N) : M unit := fun s => (Ok tt, set_clock (clock s + d)%N s, []).

(** The same call made again after each of the gaps, and the call made
    once and then again after each gap. *)
Fixpoint again (m : M pyval) (gaps : list N) : M (list pyval) :=
  match gaps with
  | [] => ret []
  | d :: rest =>
      idle d >>
      let! v := m in
      let! vs := again m rest in
      ret (v :: vs)
  end.

Definition repeatedly (m : M pyval) (gaps : list N) : M (list pyval) :=
  let! v := m in
  let! vs := again m gaps in
  ret (v :: vs).

Definition total (gaps : list N) : N := foldr N.add 0%N gaps.

(** Value and notices of a search, read off the reply. *)
Definition search_eval (limit : Z) (rep : reply) : pyval * list message :=
  let failed e := (PList [], [[FText "搜索时发生错误: "; FExn e]]) in
  match answer rep with
  | Raise e => failed e
  | Ok resp =>
      if Z.eqb (status_code resp) 200 then
        match json resp with
        | None => failed JSONDecodeError
        | Some data =>
            match py_get data "objectIDs" (PList []) with
            | Raise e => failed e
            | Ok object_ids =>
                match py_slice_to object_ids limit with
                | Raise e => failed e
                | Ok v => (v, [])
                end
            end
        end
      else (PList [], [[FText "API请求失败: "; FValue (PInt (status_code resp))]])
  end.

(** Value and notices of a detail fetch, read off the reply. *)
Definition details_eval (rep : reply) : pyval * list message :=
  let failed e := (PNone, [[FText "获取艺术品详情时发生错误: "; FExn e]]) in
  match answer rep with
  | Raise e => failed e
  | Ok resp =>
      if Z.eqb (status_code resp) 200 then
        match json resp with
        | None => failed JSONDecodeError
        | Some v => (v, [])
        end
      else (PNone, [])
  end.


(** ** A sample world *)

Definition rose : pyval :=
  PDict [("primaryImage", PStr "https://images.metmuseum.org/rose.jpg");
         ("title", PStr "Roses"); ("medium", PStr "Oil on canvas")].
Definition tulip : pyval :=
  PDict [("primaryImage", PStr ""); ("title", PStr "Tulips")].
Definition lily : pyval :=
  PDict [("title", PStr "Lilies")].

Definition search_reply (ids : list Z) : reply :=
  Reply 50 (Ok (Response 200 (Some
    (PDict [("total", PInt (Z.of_nat (length ids))); ("objectIDs", PList (map PInt ids))])))).

(** A network that answers the same way every time. *)
Definition sample_network (_ : nat) (r : request) : reply :=
  match r with
  | SearchRequest (PStr q) =>
      if String.eqb q "flower" then search_reply [1; 2; 3]
      else if String.eqb q "garden" then search_reply [1; 2; 3; 4; 5; 6; 7; 8]
      else if String.eqb q "bare" then search_reply [2; 3; 4]
      else if String.eqb q "nothing" then
        Reply 50 (Ok (Response 200 (Some (PDict [("total", PInt 0)]))))
      else if String.eqb q "offline" then
        Reply 10000 (Raise (RequestException "timed out"))
      else Reply 50 (Ok (Response 503 None))
  | SearchRequest _ => Reply 50 (Ok (Response 503 None))
  | ObjectRequest (PInt 1) => Reply 20 (Ok (Response 200 (Some rose)))
  | ObjectRequest (PInt 2) => Reply 20 (Ok (Response 200 (Some tulip)))
  | ObjectRequest (PInt 3) => Reply 20 (Ok (Response 200 (Some lily)))
  | ObjectRequest (PInt 4) => Reply 20 (Ok (Response 404 None))
  | ObjectRequest (PInt 5) => Reply 10000 (Raise (RequestException "timed out"))
  | ObjectRequest (PInt 6) => Reply 20 (Ok (Response 200 None))
  | ObjectRequest _ => Reply 20 (Ok (Response 200 (Some rose)))
  end.

(** A world in which [st.image] draws whatever it is given. *)
Definition draws_all (_ _ : pyval) : option exn := None.

Definition sample_state : state := State 0 0 sample_network draws_all [] ∅.

(** ** Vocabulary of the further properties *)

(** The values [object_ids[:limit]] accepts. *)
Definition sliceable (v : pyval) : bool :=
  match v with
  | PList _ | PStr _ => true
  | _ => false
  end.

(** Every run of [m] sends at most [n] requests. *)
Definition sends {A : Type} (n : nat) (m : M A) : Prop :=
  forall s, (length (http_gets (trace (m s))) <= n)%nat.

(** [d.get(key, default)] on the items of a dictionary. *)
Definition field_or (items : list (string * pyval)) (key : string) (default : pyval)
    : pyval :=
  match dict_lookup key items with
  | Some x => x
  | None => default
  end.

(** The line of the "More Details" panel for one field, if it gets one. *)
Definition detail_line (items : list (string * pyval)) (field : string * string)
    : option message :=
  match dict_lookup (fst field) items with
  | Some x => if py_truthy x then Some [FText (snd field); FValue x] else None
  | None => None
  end.

Definition optional_fields : list (string * string) :=
  [("medium", "**Medium:** "); ("dimensions", "**Dimensions:** ");
   ("department", "**Department:** "); ("culture", "**Culture:** ");
   ("classification", "**Classification:** "); ("creditLine", "**Credit Line:** ")].

(** What the first column of a rendered artwork holds, when [st.image]
    draws the image. *)
Definition picture (items : list (string * pyval)) : event :=
  if py_truthy (field_or items "primaryImage" PNone)
  then EImage (field_or items "primaryImage" PNone) (field_or items "title" (PStr "Untitled"))
  else image_not_available.

(** The exception [st.image] raises for a record, if it is called and
    raises one. *)
Definition refused (check : pyval -> pyval -> option exn)
    (items : list (string * pyval)) : option exn :=
  if py_truthy (field_or items "primaryImage" PNone)
  then check (field_or items "primaryImage" PNone) (field_or items "title" (PStr "Untitled"))
  else None.

(** Everything drawn for the [i]-th of [n] artworks, when its image is
    drawn. *)
Definition card (n i : Z) (items : list (string * pyval)) : list event :=
  [EColumns [1; 2]; picture items;
   EWrite [FText "**Title:** "; FValue (field_or items "title" (PStr "Unknown Title"))];
   EWrite [FText "**Artist:** ";
           FValue (field_or items "artistDisplayName" (PStr "Unknown Artist"))];
   EWrite [FText "**Year:** "; FValue (field_or items "objectDate" (PStr "Unknown Date"))];
   EExpander "More Details"]
  ++ map EWrite (omap (detail_line items) optional_fields)
  ++ (if Z.ltb i (n - 1) then [EMarkdown "---"] else []).

(** What the rendering loop draws: the cards of the artworks up to the
    first whose image [st.image] refuses, of which only the columns are
    there. *)
Fixpoint cards (check : pyval -> pyval -> option exn) (n i : Z) (artworks : list pyval)
    : list event :=
  match artworks with
  | PDict items :: rest =>
      match refused check items with
      | None => card n i items ++ cards check n (i + 1) rest
      | Some _ => [EColumns [1; 2]]
      end
  | _ => []
  end.

(** The artworks whose image is drawn: those before the first refusal. *)
Fixpoint drawn (check : pyval -> pyval -> option exn) (artworks : list pyval)
    : list pyval :=
  match artworks with
  | PDict items :: rest =>
      match refused check items with
      | None => PDict items :: drawn check rest
      | Some _ => []
      end
  | _ => []
  end.

(** Readings of what is drawn. *)
Definition images (t : list event) : list (pyval * pyval) :=
  omap (fun e => match e with EImage src caption => Some (src, caption) | _ => None end) t.

Definition rules (t : list event) : list string :=
  omap (fun e => match e with EMarkdown text => Some text | _ => None end) t.

Definition writes (t : list event) : list message :=
  omap (fun e => match e with EWrite m => Some m | _ => None end) t.

(** The image and the caption of a record. *)
Definition portrait (v : pyval) : pyval * pyval :=
  match v with
  | PDict items =>
      (field_or items "primaryImage" PNone, field_or items "title" (PStr "Untitled"))
  | _ => (PNone, PNone)
  end.

(** A second sample world, with the answers of an API that misbehaves. *)
Definition edge_network (n : nat) (r : request) : reply :=
  match r with
  | SearchRequest (PStr q) =>
      if String.eqb q "null" then
        Reply 40 (Ok (Response 200 (Some (PDict [("total", PInt 0); ("objectIDs", PNone)]))))
      else if String.eqb q "array" then
        Reply 40 (Ok (Response 200 (Some (PList [PInt 1; PInt 2]))))
      else if String.eqb q "html" then
        Reply 40 (Ok (Response 200 None))
      else if String.eqb q "offline" then
        Reply 10000 (Raise (RequestException "timed out"))
      else if String.eqb q "flaky" then
        match n with
        | O => Reply 40 (Ok (Response 503 None))
        | _ => search_reply [1; 2]
        end
      else if String.eqb q "mixed" then search_reply [1; 9; 2]
      else if String.eqb q "local" then search_reply [1; 7; 2]
      else search_reply [1; 2; 3]
  | SearchRequest _ => search_reply [1; 2; 3]
  | ObjectRequest (PInt 1) => Reply 20 (Ok (Response 200 (Some rose)))
  | ObjectRequest (PInt 2) =>
      Reply 20 (Ok (Response 200 (Some
        (PDict [("primaryImage", PStr "https://images.metmuseum.org/iris.jpg");
                ("title", PNone); ("culture", PStr "Japan"); ("medium", PStr "")]))))
  | ObjectRequest (PInt 7) =>
      Reply 20 (Ok (Response 200 (Some
        (PDict [("primaryImage", PStr "rose.jpg"); ("title", PStr "A file")]))))
  | ObjectRequest (PInt 9) => Reply 20 (Ok (Response 200 (Some (PList [PInt 9]))))
  | ObjectRequest _ => Reply 20 (Ok (Response 404 None))
  end.

(** [st.image] takes a URL and fails on anything else. *)
Definition urls_only (src _ : pyval) : option exn :=
  match src with
  | PStr s =>
      if String.prefix "http" s then None
      else Some (MediaFileStorageError s)
  | _ => Some TypeError
  end.

Definition edge_state : state := State 0 0 edge_network urls_only [] ∅.
(** ** Running the monad *)

Lemma bind_ok {A B : Type} (m : M A) (k : A -> M B) s a s1 t1 :
  m s = (Ok a, s1, t1) ->
  bind m k s = (outcome (k a s1), final (k a s1), t1 ++ trace (k a s1)).
Proof.
  intros H. unfold bind. rewrite H.
  destruct (k a s1) as [[r s2] t2]. reflexivity.
Qed.

Lemma bind_raise {A B : Type} (m : M A) (k : A -> M B) s e s1 t1 :
  m s = (Raise e, s1, t1) -> bind m k s = (Raise e, s1, t1).
Proof. intros H. unfold bind. rewrite H. reflexivity. Qed.

Lemma emit_bind {B : Type} (e : event) (k : M B) s :
  (emit e >> k) s = (outcome (k s), final (k s), e :: trace (k s)).
Proof. unfold bind, emit. destruct (k s) as [[r s2] t2]. reflexivity. Qed.

Lemma outcome_triple {A : Type} (r : result A) s t : outcome (r, s, t) = r.
Proof. reflexivity. Qed.

Lemma final_triple {A : Type} (r : result A) s t : final (r, s, t) = s.
Proof. reflexivity. Qed.

Lemma trace_triple {A : Type} (r : result A) s t : trace (r, s, t) = t.
Proof. reflexivity. Qed.

Lemma run_eta {A : Type} (x : result A * state * list event) :
  x = (outcome x, final x, trace x).
Proof. destruct x as [[r s] t]. reflexivity. Qed.

Lemma emit_bind_prefixed {B : Type} (e : event) (k : M B) s :
  (emit e >> k) s = prefixed [e] (k s).
Proof. apply emit_bind. Qed.

Lemma prefixed_prefixed {A : Type} p q (x : result A * state * list event) :
  prefixed p (prefixed q x) = prefixed (p ++ q) x.
Proof. unfold prefixed. cbn. rewrite app_assoc. reflexivity. Qed.

(** ** The two bodies never raise *)

Lemma search_body_run query limit s :
  let rep := network s (requests_made s) (SearchRequest query) in
  search_body query limit s =
    (Ok (search_eval limit rep).1, after_request rep s,
     EHttpGet (SearchRequest query) :: map EError (search_eval limit rep).2).
Proof.
  cbv zeta. unfold search_body, search_eval, try_except, bind, requests_get,
    after_request, response_json, lift, st_error, emit, ret, raise.
  destruct (answer (network s (requests_made s) (SearchRequest query))) as [resp|e];
    [|reflexivity].
  destruct (Z.eqb (status_code resp) 200); [|reflexivity].
  destruct (json resp) as [data|]; [|reflexivity].
  destruct (py_get data "objectIDs" (PList [])) as [object_ids|e]; [|reflexivity].
  destruct (py_slice_to object_ids limit) as [v|e]; reflexivity.
Qed.

Lemma details_body_run object_id s :
  let rep := network s (requests_made s) (ObjectRequest object_id) in
  details_body object_id s =
    (Ok (details_eval rep).1, after_request rep s,
     EHttpGet (ObjectRequest object_id) :: map EError (details_eval rep).2).
Proof.
  cbv zeta. unfold details_body, details_eval, try_except, bind, requests_get,
    after_request, response_json, lift, st_error, emit, ret, raise.
  destruct (answer (network s (requests_made s) (ObjectRequest object_id))) as [resp|e];
    [|reflexivity].
  destruct (Z.eqb (status_code resp) 200); [|reflexivity].
  destruct (json resp) as [data|]; reflexivity.
Qed.

Lemma errors_of_cons_get r l : errors_of (EHttpGet r :: map EError l) = l.
Proof.
  unfold errors_of. cbn. induction l as [|m l IH]; [reflexivity|].
  cbn. f_equal. exact IH.
Qed.

(** A call of a memoized function whose body returns: served from the cache
    when a fresh entry is there, computed and stored otherwise. *)
Lemma cache_data_miss c body s v s1 l r :
  cache_hit c s = None ->
  body s = (Ok v, s1, EHttpGet r :: map EError l) ->
  cache_data c body s =
    (Ok v, after_store c v l s1, EHttpGet r :: map EError l ++ [ECall c v]).
Proof.
  intros Hmiss Hbody. unfold cache_data. rewrite Hmiss, Hbody.
  rewrite errors_of_cons_get. reflexivity.
Qed.

Lemma cache_data_hit c body s e :
  cache_hit c s = Some e ->
  cache_data c body s = (Ok (value e), s, map EError (notices e) ++ [ECall c (value e)]).
Proof. intros Hhit. unfold cache_data. rewrite Hhit. reflexivity. Qed.

Lemma search_miss query limit s :
  cache_hit (CSearch query limit) s = None ->
  let rep := network s (requests_made s) (SearchRequest query) in
  let v := (search_eval limit rep).1 in
  let errs := (search_eval limit rep).2 in
  search_met_artworks query limit s =
    (Ok v, after_store (CSearch query limit) v errs (after_request rep s),
     EHttpGet (SearchRequest query) :: map EError errs ++ [ECall (CSearch query limit) v]).
Proof.
  intros Hmiss. cbv zeta. unfold search_met_artworks.
  apply cache_data_miss; [exact Hmiss | apply search_body_run].
Qed.

Lemma details_miss object_id s :
  cache_hit (CDetails object_id) s = None ->
  let rep := network s (requests_made s) (ObjectRequest object_id) in
  let v := (details_eval rep).1 in
  let errs := (details_eval rep).2 in
  get_artwork_details object_id s =
    (Ok v, after_store (CDetails object_id) v errs (after_request rep s),
     EHttpGet (ObjectRequest object_id) :: map EError errs ++ [ECall (CDetails object_id) v]).
Proof.
  intros Hmiss. cbv zeta. unfold get_artwork_details.
  apply cache_data_miss; [exact Hmiss | apply details_body_run].
Qed.

(** ** The search client *)

(** C2, amended: on a 200 response whose [objectIDs] is a list, a search
    with a limit that is not negative returns the first [limit] identifiers,
    so at most [limit] of them; when the field is missing it returns the
    empty list, for every limit. *)
Theorem search_returns_first_limit query limit s el fields :
  cache_hit (CSearch query limit) s = None ->
  network s (requests_made s) (SearchRequest query)
    = Reply el (Ok (Response 200 (Some (PDict fields)))) ->
  (forall ids, dict_lookup "objectIDs" fields = Some (PList ids) ->
     0 <= limit ->
     outcome (search_met_artworks query limit s) = Ok (PList (take (Z.to_nat limit) ids))
     /\ Z.of_nat (length (take (Z.to_nat limit) ids)) <= limit)
  /\ (dict_lookup "objectIDs" fields = None ->
     outcome (search_met_artworks query limit s) = Ok (PList [])).
Proof.
  intros Hmiss Hnet.
  rewrite (search_miss _ _ _ Hmiss). unfold outcome, search_eval. cbn.
  rewrite Hnet. cbn.
  split.
  - intros ids Hids Hlimit. rewrite Hids. cbn. unfold slice_to.
    assert (Hpos : Z.leb 0 limit = true) by (apply Z.leb_le; exact Hlimit).
    rewrite Hpos. split; [reflexivity|].
    rewrite length_take. lia.
  - intros Hnone. rewrite Hnone. cbn. unfold slice_to.
    destruct (Z.leb 0 limit); rewrite take_nil; reflexivity.
Qed.

Lemma search_returns_first_limit_witness :
  outcome (search_met_artworks "flower" 2 sample_state) = Ok (PList [PInt 1; PInt 2])
  /\ outcome (search_met_artworks "nothing" 2 sample_state) = Ok (PList [])
  /\ outcome (search_met_artworks "nothing" (-2) sample_state) = Ok (PList []).
Proof.
  split; [|split].
  - refine (proj1 (proj1 (search_returns_first_limit "flower" 2 sample_state 50
        [("total", PInt 3); ("objectIDs", PList [PInt 1; PInt 2; PInt 3])]
        _ _) [PInt 1; PInt 2; PInt 3] _ _));
      first [reflexivity | lia].
  - refine (proj2 (search_returns_first_limit "nothing" 2 sample_state 50
        [("total", PInt 0)] _ _) _);
      reflexivity.
  - refine (proj2 (search_returns_first_limit "nothing" (-2) sample_state 50
        [("total", PInt 0)] _ _) _);
      reflexivity.
Defined.

(** With a negative limit the slice drops identifiers from the end instead:
    here three identifiers and the limit -1 give two identifiers. *)
Lemma search_negative_limit_counterexample :
  cache_hit (CSearch "flower" (-1)) sample_state = None
  /\ network sample_state (requests_made sample_state) (SearchRequest "flower")
     = Reply 50 (Ok (Response 200 (Some
         (PDict [("total", PInt 3); ("objectIDs", PList [PInt 1; PInt 2; PInt 3])]))))
  /\ outcome (search_met_artworks "flower" (-1) sample_state) = Ok (PList [PInt 1; PInt 2])
  /\ ~ (Z.of_nat (length [PInt 1; PInt 2]) <= -1).
Proof.
  split; [reflexivity|]. split; [reflexivity|]. split; [reflexivity|].
  cbn. lia.
Qed.

(** C3: when the search request is answered with a status other than 200,
    the search returns the empty list, shows exactly one error notice and
    has sent exactly one request. *)
Theorem search_non_200 query limit s el resp :
  cache_hit (CSearch query limit) s = None ->
  network s (requests_made s) (SearchRequest query) = Reply el (Ok resp) ->
  status_code resp <> 200 ->
  let run := search_met_artworks query limit s in
  outcome run = Ok (PList [])
  /\ errors_of (trace run) = [[FText "API请求失败: "; FValue (PInt (status_code resp))]]
  /\ http_gets (trace run) = [SearchRequest query]
  /\ requests_made (final run) = S (requests_made s).
Proof.
  intros Hmiss Hnet Hstatus. cbv zeta.
  rewrite (search_miss _ _ _ Hmiss). unfold outcome, trace, final, search_eval. cbn.
  rewrite Hnet. cbn.
  apply Z.eqb_neq in Hstatus. rewrite Hstatus. cbn.
  repeat split; reflexivity.
Qed.

Lemma search_non_200_witness :
  let run := search_met_artworks "storm" 20 sample_state in
  outcome run = Ok (PList [])
  /\ errors_of (trace run) = [[FText "API请求失败: "; FValue (PInt 503)]]
  /\ http_gets (trace run) = [SearchRequest "storm"]
  /\ requests_made (final run) = 1%nat.
Proof.
  refine (search_non_200 "storm" 20 sample_state 50 (Response 503 None) _ _ _);
    first [reflexivity | discriminate].
Defined.

(** ** The detail fetcher *)

(** C4: the detail fetch returns [None] on a status other than 200 and on
    an exception of the transport or of the JSON parser; it shows an error
    notice on the exception paths and none on the status path. *)
Theorem details_failure_paths object_id s :
  cache_hit (CDetails object_id) s = None ->
  let rep := network s (requests_made s) (ObjectRequest object_id) in
  let run := get_artwork_details object_id s in
  (forall resp, answer rep = Ok resp -> status_code resp <> 200 ->
     outcome run = Ok PNone /\ errors_of (trace run) = [])
  /\ (forall e, answer rep = Raise e ->
     outcome run = Ok PNone
     /\ errors_of (trace run) = [[FText "获取艺术品详情时发生错误: "; FExn e]])
  /\ (forall resp, answer rep = Ok resp -> status_code resp = 200 -> json resp = None ->
     outcome run = Ok PNone
     /\ errors_of (trace run) = [[FText "获取艺术品详情时发生错误: "; FExn JSONDecodeError]]).
Proof.
  intros Hmiss. cbv zeta.
  rewrite (details_miss _ _ Hmiss). unfold outcome, trace, details_eval. cbn.
  split; [|split].
  - intros resp Hans Hstatus. rewrite Hans. apply Z.eqb_neq in Hstatus.
    rewrite Hstatus. cbn. split; reflexivity.
  - intros e Hans. rewrite Hans. cbn. split; reflexivity.
  - intros resp Hans Hstatus Hjson. rewrite Hans, Hstatus, Hjson. cbn.
    split; reflexivity.
Qed.

Lemma details_failure_paths_witness :
  (outcome (get_artwork_details (PInt 4) sample_state) = Ok PNone
   /\ errors_of (trace (get_artwork_details (PInt 4) sample_state)) = [])
  /\ (outcome (get_artwork_details (PInt 5) sample_state) = Ok PNone
   /\ errors_of (trace (get_artwork_details (PInt 5) sample_state))
      = [[FText "获取艺术品详情时发生错误: "; FExn (RequestException "timed out")]])
  /\ (outcome (get_artwork_details (PInt 6) sample_state) = Ok PNone
   /\ errors_of (trace (get_artwork_details (PInt 6) sample_state))
      = [[FText "获取艺术品详情时发生错误: "; FExn JSONDecodeError]]).
Proof.
  split; [|split].
  - refine (proj1 (details_failure_paths (PInt 4) sample_state _)
              (Response 404 None) _ _); first [reflexivity | discriminate].
  - refine (proj1 (proj2 (details_failure_paths (PInt 5) sample_state _))
              (RequestException "timed out") _); reflexivity.
  - refine (proj2 (proj2 (details_failure_paths (PInt 6) sample_state _))
              (Response 200 None) _ _ _); reflexivity.
Defined.

(** ** Invariants of traces *)

Section Emits.
Variable P : event -> Prop.

Lemma emits_ret {A : Type} (a : A) : emits P (ret a).
Proof. intros s. constructor. Qed.

Lemma emits_lift {A : Type} (r : result A) : emits P (lift r).
Proof. intros s. constructor. Qed.

Lemma emits_emit e : P e -> emits P (emit e).
Proof. intros H s. repeat constructor. exact H. Qed.

Lemma emits_bind_returns {A B : Type} (Q : A -> Prop) (m : M A) (k : A -> M B) :
  emits P m -> returns Q m -> (forall a, Q a -> emits P (k a)) -> emits P (bind m k).
Proof.
  intros Hm HQ Hk s. specialize (Hm s). specialize (HQ s).
  unfold bind. destruct (m s) as [[[a|e] s1] t1]; cbn in *; [|exact Hm].
  specialize (Hk a (HQ a eq_refl) s1).
  destruct (k a s1) as [[r s2] t2]. cbn in *.
  apply Forall_app. split; assumption.
Qed.

Lemma emits_bind {A B : Type} (m : M A) (k : A -> M B) :
  emits P m -> (forall a, emits P (k a)) -> emits P (bind m k).
Proof.
  intros Hm Hk. apply (emits_bind_returns (fun _ => True)); auto.
  intros s a _. exact I.
Qed.

Lemma emits_try_except {A : Type} (m : M A) (h : exn -> M A) :
  emits P m -> (forall e, emits P (h e)) -> emits P (try_except m h).
Proof.
  intros Hm Hh s. specialize (Hm s).
  unfold try_except. destruct (m s) as [[[a|e] s1] t1]; cbn in *; [exact Hm|].
  specialize (Hh e s1). destruct (h e s1) as [[r s2] t2]. cbn in *.
  apply Forall_app. split; assumption.
Qed.

Lemma emits_for_enumerate {A B : Type} (body : Z -> A -> B -> M B) xs :
  (forall i x acc, x ∈ xs -> emits P (body i x acc)) ->
  forall i acc, emits P (for_enumerate body i xs acc).
Proof.
  induction xs as [|x rest IH]; intros Hbody i acc; cbn.
  - apply emits_ret.
  - apply emits_bind.
    + apply Hbody. left.
    + intros acc'. apply IH. intros j y acc'' Hy. apply Hbody. right. exact Hy.
Qed.

Lemma emits_sleep ms : P (ESleep ms) -> emits P (sleep ms).
Proof. intros H s. repeat constructor. exact H. Qed.

Lemma emits_requests_get r : P (EHttpGet r) -> emits P (requests_get r).
Proof. intros H s. repeat constructor. exact H. Qed.

Lemma emits_cache_data c body :
  (forall m, P (EError m)) -> (forall v, P (ECall c v)) ->
  emits P body -> emits P (cache_data c body).
Proof.
  intros Herr Hcall Hbody s. unfold cache_data.
  destruct (cache_hit c s) as [e|].
  - cbn. apply Forall_app. split.
    + apply Forall_map. apply Forall_true. intros m. apply Herr.
    + repeat constructor. apply Hcall.
  - specialize (Hbody s). destruct (body s) as [[[v|e] s1] t1]; cbn in *.
    + apply Forall_app. split; [exact Hbody|]. repeat constructor. apply Hcall.
    + exact Hbody.
Qed.

Lemma emits_search query limit :
  (forall m, P (EError m)) -> (forall v, P (ECall (CSearch query limit) v)) ->
  P (EHttpGet (SearchRequest query)) ->
  emits P (search_met_artworks query limit).
Proof.
  intros Herr Hcall Hget. apply emits_cache_data; [exact Herr | exact Hcall |].
  intros s. rewrite search_body_run. cbn.
  constructor; [exact Hget|].
  apply Forall_map. apply Forall_true. intros m. apply Herr.
Qed.

Lemma emits_details object_id :
  (forall m, P (EError m)) -> (forall v, P (ECall (CDetails object_id) v)) ->
  P (EHttpGet (ObjectRequest object_id)) ->
  emits P (get_artwork_details object_id).
Proof.
  intros Herr Hcall Hget. apply emits_cache_data; [exact Herr | exact Hcall |].
  intros s. rewrite details_body_run. cbn.
  constructor; [exact Hget|].
  apply Forall_map. apply Forall_true. intros m. apply Herr.
Qed.
End Emits.

(** ** The shape of a memoized call *)

Lemma cache_data_shape c body s :
  (exists v s1 r l, body s = (Ok v, s1, EHttpGet r :: map EError l)) ->
  exists v s1 pre,
    cache_data c body s = (Ok v, s1, pre ++ [ECall c v])
    /\ Forall (fun e => quiet e = true) pre.
Proof.
  intros (v & s1 & r & l & Hbody).
  destruct (cache_hit c s) as [e|] eqn:Hhit.
  - exists (value e), s, (map EError (notices e)). split.
    + apply cache_data_hit. exact Hhit.
    + apply Forall_map. apply Forall_true. intros m. reflexivity.
  - exists v, (after_store c v l s1), (EHttpGet r :: map EError l). split.
    + rewrite (cache_data_miss _ _ _ _ _ _ _ Hhit Hbody). reflexivity.
    + constructor; [reflexivity|].
      apply Forall_map. apply Forall_true. intros m. reflexivity.
Qed.

Lemma details_shape object_id s :
  exists v s1 pre,
    get_artwork_details object_id s = (Ok v, s1, pre ++ [ECall (CDetails object_id) v])
    /\ Forall (fun e => quiet e = true) pre.
Proof.
  apply cache_data_shape. eexists _, _, _, _. apply details_body_run.
Qed.

Lemma search_shape query limit s :
  exists v s1 pre,
    search_met_artworks query limit s = (Ok v, s1, pre ++ [ECall (CSearch query limit) v])
    /\ Forall (fun e => quiet e = true) pre.
Proof.
  apply cache_data_shape. eexists _, _, _, _. apply search_body_run.
Qed.

Lemma omap_quiet {B : Type} (f : event -> option B) pre :
  (forall e, quiet e = true -> f e = None) ->
  Forall (fun e => quiet e = true) pre -> omap f pre = [].
Proof.
  intros Hf Hpre. induction Hpre as [|e pre He _ IH]; [reflexivity|].
  cbn. rewrite (Hf e He). exact IH.
Qed.

(** ** The fetch loop *)

Lemma fetch_step_run i artwork_id artworks s v s1 t1 :
  get_artwork_details artwork_id s = (Ok v, s1, t1) ->
  fetch_step i artwork_id artworks s =
    if crashing v then (Raise AttributeError, s1, loading i :: t1)
    else (Ok (if has_image v then artworks ++ [v] else artworks),
          set_clock (clock s1 + 100)%N s1,
          loading i :: t1 ++ [EProgress (i + 1) 6; ESleep 100]).
Proof.
  intros Hget. unfold fetch_step. rewrite emit_bind.
  rewrite (bind_ok _ _ _ _ _ _ Hget).
  unfold crashing, has_image, outcome, final, trace.
  destruct (py_truthy v) eqn:Htruthy; cycle 1.
  - cbn. destruct v as [|b|n|f|str|items|items]; cbn in *;
      try discriminate; try reflexivity.
    destruct items; [reflexivity | discriminate].
  - destruct v as [|b|n|f|str|items|items]; cbn in *;
      try discriminate; try (rewrite app_nil_r; reflexivity).
    unfold bind, lift, ret, emit, sleep. cbn.
    destruct (dict_lookup "primaryImage" items) as [image|]; reflexivity.
Qed.

Lemma record_not_crashing v : record_or_absent v -> crashing v = false.
Proof. destruct v; cbn; intros H; try contradiction; try reflexivity.
  unfold crashing. cbn. apply andb_false_r. Qed.

Lemma crashing_not_record v : crashing v = true -> ~ record_or_absent v.
Proof. intros Hc Hr. rewrite (record_not_crashing v Hr) in Hc. discriminate. Qed.

(** A reading that ignores requests and notices sees, of one turn of the
    loop, the status line, the returned call, the progress and the pause. *)
Lemma omap_turn {B : Type} (f : event -> option B) i object_id v pre rest :
  (forall e, quiet e = true -> f e = None) ->
  Forall (fun e => quiet e = true) pre ->
  omap f ((loading i :: (pre ++ [ECall (CDetails object_id) v])
             ++ [EProgress (i + 1) 6; ESleep 100]) ++ rest)
  = omap f [loading i; ECall (CDetails object_id) v; EProgress (i + 1) 6; ESleep 100]
    ++ omap f rest.
Proof.
  intros Hf Hpre.
  change (loading i :: (pre ++ [ECall (CDetails object_id) v])
             ++ [EProgress (i + 1) 6; ESleep 100])
    with ([loading i] ++ (pre ++ [ECall (CDetails object_id) v])
             ++ [EProgress (i + 1) 6; ESleep 100]).
  rewrite !omap_app. rewrite (omap_quiet f pre Hf Hpre).
  change [loading i; ECall (CDetails object_id) v; EProgress (i + 1) 6; ESleep 100]
    with ([loading i] ++ [ECall (CDetails object_id) v]
            ++ [EProgress (i + 1) 6; ESleep 100]).
  rewrite !omap_app. cbn [app]. rewrite <- !app_assoc. reflexivity.
Qed.

Lemma omap_crash {B : Type} (f : event -> option B) i object_id v pre :
  (forall e, quiet e = true -> f e = None) ->
  Forall (fun e => quiet e = true) pre ->
  omap f (loading i :: pre ++ [ECall (CDetails object_id) v])
  = omap f [loading i; ECall (CDetails object_id) v].
Proof.
  intros Hf Hpre.
  change (loading i :: pre ++ [ECall (CDetails object_id) v])
    with ([loading i] ++ pre ++ [ECall (CDetails object_id) v]).
  rewrite !omap_app. rewrite (omap_quiet f pre Hf Hpre).
  change [loading i; ECall (CDetails object_id) v]
    with ([loading i] ++ [ECall (CDetails object_id) v]).
  rewrite omap_app. reflexivity.
Qed.

Lemma quiet_fetched e : quiet e = true ->
  match e with ECall (CDetails _) v => Some v | _ => None end = None.
Proof. destruct e; cbn; intros H; try discriminate; reflexivity. Qed.

Lemma quiet_pace e : quiet e = true -> pace_of e = None.
Proof. destruct e; cbn; intros H; try discriminate; reflexivity. Qed.

(** The loop keeps exactly the fetched values that have an image; and when
    every fetched value is a record or absent it runs to its end, at the
    pace of [schedule]. *)
Lemma fetch_loop_spec ids : forall i acc s,
  let run := for_enumerate fetch_step i ids acc s in
  (forall artworks, outcome run = Ok artworks ->
     artworks = acc ++ List.filter has_image (fetched (trace run)))
  /\ (Forall record_or_absent (fetched (trace run)) ->
      (exists artworks, outcome run = Ok artworks)
      /\ omap pace_of (trace run) = schedule i ids).
Proof.
  induction ids as [|object_id rest IH]; intros i acc s; cbv zeta.
  - cbn. split.
    + intros artworks [= <-]. rewrite app_nil_r. reflexivity.
    + intros _. split; [eexists; reflexivity | reflexivity].
  - cbn [for_enumerate schedule].
    destruct (details_shape object_id s) as (v & s1 & pre & Hget & Hpre).
    pose proof (fetch_step_run i object_id acc s v s1 _ Hget) as Hstep.
    destruct (crashing v) eqn:Hcrash.
    + rewrite (bind_raise _ _ _ _ _ _ Hstep).
      rewrite !outcome_triple, !trace_triple.
      split; [intros artworks [=]|].
      unfold fetched. rewrite (omap_crash _ i object_id v pre quiet_fetched Hpre).
      cbn. intros Hall. apply Forall_cons in Hall as [Hv _].
      destruct (crashing_not_record v Hcrash Hv).
    + rewrite (bind_ok _ _ _ _ _ _ Hstep).
      rewrite !outcome_triple, !trace_triple.
      specialize (IH (i + 1) (if has_image v then acc ++ [v] else acc)
                     (set_clock (clock s1 + 100)%N s1)).
      cbv zeta in IH. destruct IH as [IHkeep IHpace].
      unfold fetched in *.
      rewrite (omap_turn _ i object_id v pre _ quiet_fetched Hpre).
      rewrite (omap_turn _ i object_id v pre _ quiet_pace Hpre).
      cbn [omap list_omap loading pace_of app].
      split.
      * intros artworks Hout. rewrite (IHkeep artworks Hout). cbn [List.filter].
        destruct (has_image v); [rewrite <- app_assoc|]; reflexivity.
      * intros Hall. apply Forall_cons in Hall as [_ Hall].
        destruct (IHpace Hall) as [Hex Hsched]. split; [exact Hex|].
        rewrite Hsched. reflexivity.
Qed.

(** ** Rendering *)

Lemma emits_st_image (P : event -> Prop) src caption :
  P (EImage src caption) -> emits P (st_image src caption).
Proof.
  intros H s. unfold st_image.
  destruct (image_error s src caption); cbn; repeat constructor. exact H.
Qed.

Lemma emits_write_if_present artwork key label :
  emits (fun e => render_event e = true) (write_if_present artwork key label).
Proof.
  unfold write_if_present.
  apply emits_bind; [apply emits_lift | intros v].
  destruct (py_truthy v); [|apply emits_ret].
  apply emits_bind; [apply emits_lift | intros x].
  apply emits_emit. reflexivity.
Qed.

(** A record with an image is drawn with its image, never with the
    fallback text. *)
Lemma emits_render_step n i artwork :
  has_image artwork = true ->
  emits (fun e => render_event e = true) (render_step n i artwork tt).
Proof.
  intros Himage. destruct artwork as [| | | | |?|items]; try discriminate.
  cbn in Himage. unfold render_step.
  apply emits_bind; [apply emits_emit; reflexivity | intros _].
  apply (emits_bind_returns _ (fun image => py_truthy image = true)).
  - apply emits_lift.
  - intros s image. unfold lift, outcome. cbn.
    destruct (dict_lookup "primaryImage" items) as [x|]; [|discriminate].
    intros [= <-]. exact Himage.
  - intros image Htruthy. rewrite Htruthy.
    apply emits_bind.
    { apply emits_bind; [apply emits_lift | intros src].
      apply emits_bind; [apply emits_lift | intros caption].
      apply emits_st_image. reflexivity. }
    intros _.
    apply emits_bind; [apply emits_lift | intros title].
    apply emits_bind; [apply emits_lift | intros artist].
    apply emits_bind; [apply emits_lift | intros year].
    repeat (apply emits_bind;
            [first [apply emits_emit; reflexivity | apply emits_write_if_present]
            | intros _]).
    destruct (Z.ltb i (n - 1)); [apply emits_emit; reflexivity | apply emits_ret].
Qed.

(** Rendering changes no state, whether it ends or raises. *)
Lemma unchanged_ret {A : Type} (a : A) : unchanged (ret a).
Proof. intros s. reflexivity. Qed.

Lemma unchanged_lift {A : Type} (r : result A) : unchanged (lift r).
Proof. intros s. reflexivity. Qed.

Lemma unchanged_emit e : unchanged (emit e).
Proof. intros s. reflexivity. Qed.

Lemma unchanged_st_image src caption : unchanged (st_image src caption).
Proof. intros s. unfold st_image. destruct (image_error s src caption); reflexivity. Qed.

Lemma unchanged_bind {A B : Type} (m : M A) (k : A -> M B) :
  unchanged m -> (forall a, unchanged (k a)) -> unchanged (bind m k).
Proof.
  intros Hm Hk s. specialize (Hm s). unfold bind.
  destruct (m s) as [[[a|e] s1] t1]; cbn in *; [|exact Hm]. subst s1.
  specialize (Hk a s). destruct (k a s) as [[r s2] t2]. exact Hk.
Qed.

Lemma unchanged_for_enumerate {A B : Type} (body : Z -> A -> B -> M B) xs :
  (forall i x acc, unchanged (body i x acc)) ->
  forall i acc, unchanged (for_enumerate body i xs acc).
Proof.
  intros Hbody. induction xs as [|x rest IH]; intros i acc; cbn.
  - apply unchanged_ret.
  - apply unchanged_bind; [apply Hbody | intros acc'; apply IH].
Qed.

Ltac unchanged :=
  repeat first
    [ apply unchanged_ret | apply unchanged_lift | apply unchanged_emit
    | apply unchanged_st_image
    | apply unchanged_bind; [|intros ?]
    | match goal with
      | |- unchanged (if ?b then _ else _) => destruct b
      end ].

Lemma unchanged_render_step n i artwork u : unchanged (render_step n i artwork u).
Proof. unfold render_step, write_if_present. unchanged. Qed.

(** ** What the driver can emit *)

Lemma emits_weaken {A : Type} (P Q : event -> Prop) (m : M A) :
  (forall e, P e -> Q e) -> emits P m -> emits Q m.
Proof. intros HPQ Hm s. eapply Forall_impl; [apply Hm | exact HPQ]. Qed.

Lemma emits_search_events query limit :
  emits (fun e => search_event e = true) (search_met_artworks query limit).
Proof. apply emits_search; reflexivity. Qed.

Lemma emits_fetch_step i object_id acc :
  emits (fun e => loop_event e = true) (fetch_step i object_id acc).
Proof.
  unfold fetch_step.
  apply emits_bind; [apply emits_emit; reflexivity | intros _].
  apply emits_bind; [apply emits_details; reflexivity | intros artwork].
  apply emits_bind.
  { destruct (py_truthy artwork); [|apply emits_ret].
    apply emits_bind; [apply emits_lift | intros image; apply emits_ret]. }
  intros keep.
  apply emits_bind; [apply emits_emit; reflexivity | intros _].
  apply emits_bind; [apply emits_sleep; reflexivity | intros _].
  apply emits_ret.
Qed.

Lemma emits_fetch_loop ids i acc :
  emits (fun e => loop_event e = true) (for_enumerate fetch_step i ids acc).
Proof. apply emits_for_enumerate. intros j x acc' _. apply emits_fetch_step. Qed.

Lemma returns_fetch_loop ids i :
  returns (Forall (fun a => has_image a = true)) (for_enumerate fetch_step i ids []).
Proof.
  intros s artworks Hout.
  destruct (fetch_loop_spec ids i [] s) as [Hkeep _].
  rewrite (Hkeep artworks Hout). cbn [app].
  apply Forall_forall. intros a Ha.
  apply list_elem_of_In, List.filter_In in Ha. apply Ha.
Qed.

Lemma emits_render_loop n artworks i :
  Forall (fun a => has_image a = true) artworks ->
  emits (fun e => render_event e = true) (for_enumerate (render_step n) i artworks tt).
Proof.
  intros Hall. apply emits_for_enumerate.
  intros j a [] Ha. apply emits_render_step.
  rewrite Forall_forall in Hall. apply Hall. exact Ha.
Qed.

(** The driver emits nothing but the events of the search and of the loop,
    its own notices, and the elements of rendered artworks; the fallback
    text is none of them. *)
Lemma emits_show_results (P : event -> Prop) artwork_ids :
  (forall e, loop_event e = true -> P e) ->
  (forall e, render_event e = true -> P e) ->
  (forall m, P (EWarning m)) ->
  (forall n, P (EInfo [FText "Found "; FValue (PInt n); FText " artworks"])) ->
  P EPlaceholder -> P EProgressEmpty -> P EStatusEmpty ->
  emits P (show_results artwork_ids).
Proof.
  intros Hplumb Hrender Hwarn Hinfo Hplace Hpe Hse.
  unfold show_results.
  destruct (negb (py_truthy artwork_ids)); [apply emits_emit; apply Hwarn|].
  apply emits_bind; [apply emits_lift | intros found].
  apply emits_bind; [apply emits_emit; apply Hinfo | intros _].
  apply emits_bind; [apply emits_emit; apply Hplumb; reflexivity | intros _].
  apply emits_bind; [apply emits_emit; apply Hplace | intros _].
  apply emits_bind; [apply emits_lift | intros first6].
  apply emits_bind; [apply emits_lift | intros ids].
  apply (emits_bind_returns P (Forall (fun a => has_image a = true))).
  - eapply emits_weaken; [exact Hplumb | apply emits_fetch_loop].
  - apply returns_fetch_loop.
  - intros artworks Hall.
    apply emits_bind; [apply emits_emit; apply Hpe | intros _].
    apply emits_bind; [apply emits_emit; apply Hse | intros _].
    destruct artworks as [|a rest]; [apply emits_emit; apply Hwarn|].
    eapply emits_weaken; [exact Hrender | apply emits_render_loop; exact Hall].
Qed.

Lemma emits_display_artworks (P : event -> Prop) search_term :
  (forall e, search_event e = true -> P e) ->
  (forall e, loop_event e = true -> P e) ->
  (forall e, render_event e = true -> P e) ->
  (forall m, P (ESubheader m)) -> (forall m, P (ESpinner m)) ->
  (forall m, P (EWarning m)) ->
  (forall n, P (EInfo [FText "Found "; FValue (PInt n); FText " artworks"])) ->
  P EPlaceholder -> P EProgressEmpty -> P EStatusEmpty ->
  emits P (display_artworks search_term).
Proof.
  intros Hsearch Hplumb Hrender Hsub Hspin Hwarn Hinfo Hplace Hpe Hse.
  unfold display_artworks.
  apply emits_bind; [apply emits_emit; apply Hsub | intros _].
  apply emits_bind; [apply emits_emit; apply Hspin | intros _].
  apply emits_bind.
  { eapply emits_weaken; [exact Hsearch | apply emits_search_events]. }
  intros artwork_ids. apply emits_show_results; assumption.
Qed.

(** ** The driver, step by step *)

Lemma display_run search_term s v s1 t1 :
  search_met_artworks search_term 20 s = (Ok v, s1, t1) ->
  display_artworks search_term s =
    (outcome (show_results v s1), final (show_results v s1),
     search_heading search_term ++ t1 ++ trace (show_results v s1)).
Proof.
  intros Hsearch. unfold display_artworks. rewrite !emit_bind.
  rewrite (bind_ok _ _ _ _ _ _ Hsearch).
  rewrite !outcome_triple, !final_triple, !trace_triple. reflexivity.
Qed.

Lemma show_results_run ids s :
  ids <> [] ->
  let loop := for_enumerate fetch_step 0 (take 6 ids) [] s in
  show_results (PList ids) s =
    match outcome loop with
    | Raise e => (Raise e, final loop, found_heading ids ++ trace loop)
    | Ok artworks =>
        let rest := show_artworks artworks (final loop) in
        (outcome rest, final rest,
         found_heading ids ++ trace loop ++ [EProgressEmpty; EStatusEmpty] ++ trace rest)
    end.
Proof.
  intros Hids. destruct ids as [|x xs]; [contradiction|]. cbv zeta.
  unfold show_results, show_artworks, found_heading.
  cbn [py_truthy negb length Nat.eqb py_len py_slice_to py_iter].
  change (slice_to 6 (x :: xs)) with (take 6 (x :: xs)).
  unfold bind at 1, lift at 1. unfold bind at 1, emit at 1.
  unfold bind at 1, emit at 1. unfold bind at 1, emit at 1.
  unfold bind at 1, lift at 1. unfold bind at 1, lift at 1.
  unfold bind at 1.
  cbn [py_iter].
  destruct (for_enumerate fetch_step 0 (take 6 (x :: xs)) [] s)
    as [[[artworks|e] s2] t2];
    rewrite ?outcome_triple, ?final_triple, ?trace_triple; [|reflexivity].
  rewrite !emit_bind.
  rewrite !outcome_triple, !final_triple, !trace_triple.
  reflexivity.
Qed.

Lemma omap_none {B : Type} (f : event -> option B) t :
  Forall (fun e => f e = None) t -> omap f t = [].
Proof.
  intros H. induction H as [|e t He _ IH]; [reflexivity|].
  cbn. rewrite He. exact IH.
Qed.



(** ** Strings by characters *)

Lemma characters_cons c rest : characters (c :: rest) <> [].
Proof.
  cbn. destruct (characters rest) as [|[|c' following] later]; try discriminate.
  destruct (continuation c'); discriminate.
Qed.

Lemma py_characters_empty str : length (py_characters str) = 0%nat -> str = "".
Proof.
  destruct str as [|a str]; [reflexivity|].
  unfold py_characters. cbn [list_ascii_of_string]. intros H.
  destruct (characters (a :: list_ascii_of_string str)) eqn:Hc; [|discriminate].
  destruct (characters_cons _ _ Hc).
Qed.

(** The groups [characters] makes: each is one byte followed by
    continuation bytes, and each but the first begins with a byte that is
    no continuation byte. *)
Lemma characters_groups bytes :
  Forall (fun g => exists c tl, g = c :: tl /\ Forall (fun b => continuation b = true) tl)
         (characters bytes)
  /\ Forall (fun g => exists c tl, g = c :: tl /\ continuation c = false)
            (tail (characters bytes)).
Proof.
  induction bytes as [|c rest [IHg IHf]]; [split; constructor|].
  cbn [characters].
  destruct (characters rest) as [|[|c' following] later].
  - split; [|constructor]. repeat constructor. exists c, []. split; [reflexivity | constructor].
  - apply Forall_cons in IHg as [(? & ? & [=] & _) _].
  - apply Forall_cons in IHg as [(c0 & tl & [= <- <-] & Htl) Hlater]. cbn [tail] in IHf.
    destruct (continuation c') eqn:Hc'.
    + split; [|exact IHf]. constructor; [|exact Hlater].
      exists c, (c' :: following). split; [reflexivity|]. constructor; assumption.
    + split.
      * constructor; [exists c, []; split; [reflexivity | constructor]|].
        constructor; [|exact Hlater]. exists c', following. split; [reflexivity | exact Htl].
      * cbn [tail]. constructor; [|exact IHf]. exists c', following. split; reflexivity || exact Hc'.
Qed.

Lemma characters_step c rest :
  characters (c :: rest)
  = match characters rest with
    | (c' :: following) :: later =>
        if continuation c' then (c :: c' :: following) :: later
        else [c] :: (c' :: following) :: later
    | later => [c] :: later
    end.
Proof. reflexivity. Qed.

Lemma characters_group c tl r :
  Forall (fun b => continuation b = true) tl ->
  match characters r with
  | [] => True
  | g :: _ => exists c' f, g = c' :: f /\ continuation c' = false
  end ->
  characters (c :: tl ++ r) = (c :: tl) :: characters r.
Proof.
  intros Htl Hr. revert c. induction Htl as [|t tl Ht _ IH]; intros c.
  - cbn [app]. rewrite characters_step.
    destruct (characters r) as [|g later]; [reflexivity|].
    destruct Hr as (c' & f & -> & Hc'). rewrite Hc'. reflexivity.
  - change (c :: (t :: tl) ++ r) with (c :: t :: tl ++ r).
    rewrite characters_step, (IH t), Ht. reflexivity.
Qed.

Lemma characters_concat groups :
  Forall (fun g => exists c tl, g = c :: tl /\ Forall (fun b => continuation b = true) tl)
         groups ->
  Forall (fun g => exists c tl, g = c :: tl /\ continuation c = false) (tail groups) ->
  characters (concat groups) = groups.
Proof.
  induction groups as [|g rest IH]; intros Hg Hf; [reflexivity|].
  apply Forall_cons in Hg as [(c & tl & -> & Htl) Hrest]. cbn [tail] in Hf.
  assert (IH' : characters (concat rest) = rest).
  { apply IH; [exact Hrest|]. destruct rest; [constructor|].
    apply Forall_cons in Hf as [_ Hf]. exact Hf. }
  cbn [concat]. change ((c :: tl) ++ concat rest) with (c :: tl ++ concat rest).
  rewrite characters_group; [rewrite IH'; reflexivity | exact Htl |].
  rewrite IH'. destruct rest as [|g later]; [exact I|].
  apply Forall_cons in Hf as [(c' & f & -> & Hc') _]. exists c', f. split; [reflexivity | exact Hc'].
Qed.

(** A prefix of the characters of a string is a string of as many
    characters. *)
Lemma characters_take k bytes :
  characters (concat (take k (characters bytes))) = take k (characters bytes).
Proof.
  destruct (characters_groups bytes) as [Hg Hf].
  apply characters_concat.
  - apply Forall_take. exact Hg.
  - destruct k as [|k]; [constructor|].
    destruct (characters bytes) as [|g later]; [constructor|].
    cbn [take tail] in *. apply Forall_take. exact Hf.
Qed.

(** ** C5, C6, C7: what the driver does with a search result *)

Lemma empty_sequence_falsy v : py_len v = Ok 0 -> py_truthy v = false.
Proof.
  destruct v as [|b|n|f|str|items|items]; cbn; intros H; try discriminate.
  - rewrite (py_characters_empty str); [reflexivity|]. injection H. lia.
  - destruct items; [reflexivity | cbn in H; injection H; lia].
  - destruct items; [reflexivity | cbn in H; injection H; lia].
Qed.

Lemma search_touches_no_details query limit s :
  detail_calls (trace (search_met_artworks query limit s)) = []
  /\ object_requests (trace (search_met_artworks query limit s)) = []
  /\ fetched (trace (search_met_artworks query limit s)) = []
  /\ omap pace_of (trace (search_met_artworks query limit s)) = []
  /\ Forall (fun e => render_event e = false) (trace (search_met_artworks query limit s)).
Proof.
  pose proof (emits_search_events query limit s) as H.
  repeat split; try apply omap_none;
    (eapply Forall_impl; [exact H|]);
    intros [[]|[]| | | | | | | | | | | | | | | | | | | |]; cbn;
    intros He; try discriminate; reflexivity.
Qed.

(** C5: when the search returns an empty sequence the driver shows the
    "No artworks found" notice and stops: it fetches no details. *)
Theorem no_results_no_fetch search_term s v :
  outcome (search_met_artworks search_term 20 s) = Ok v ->
  py_len v = Ok 0 ->
  let run := display_artworks search_term s in
  outcome run = Ok tt
  /\ trace run = search_heading search_term
                 ++ trace (search_met_artworks search_term 20 s)
                 ++ [no_artworks_found]
  /\ detail_calls (trace run) = []
  /\ object_requests (trace run) = [].
Proof.
  intros Hout Hempty. cbv zeta.
  destruct (search_touches_no_details search_term 20 s) as (Hcalls & Hreqs & _).
  destruct (search_met_artworks search_term 20 s) as [[r s1] t1] eqn:Hsearch.
  cbn in Hout. subst r. rewrite !trace_triple in *.
  rewrite (display_run _ _ _ _ _ Hsearch).
  unfold show_results. rewrite (empty_sequence_falsy v Hempty). cbn [negb].
  rewrite !outcome_triple, !trace_triple.
  split; [reflexivity|]. split; [reflexivity|].
  unfold detail_calls, object_requests in *.
  rewrite !omap_app, Hcalls, Hreqs. split; reflexivity.
Qed.

Lemma no_results_no_fetch_witness :
  let run := display_artworks "nothing" sample_state in
  outcome run = Ok tt
  /\ trace run = search_heading "nothing"
                 ++ trace (search_met_artworks "nothing" 20 sample_state)
                 ++ [no_artworks_found]
  /\ detail_calls (trace run) = []
  /\ object_requests (trace run) = [].
Proof.
  refine (no_results_no_fetch "nothing" sample_state (PList []) _ _); reflexivity.
Defined.

Lemma show_artworks_emits artworks :
  Forall (fun a => has_image a = true) artworks ->
  emits (fun e => render_event e = true \/ e = no_images_found) (show_artworks artworks).
Proof.
  intros Hall. destruct artworks as [|a rest].
  - apply emits_emit. right. reflexivity.
  - unfold show_artworks. eapply emits_weaken; [|apply emits_render_loop; exact Hall].
    intros e He. left. exact He.
Qed.

Lemma show_artworks_unchanged artworks : unchanged (show_artworks artworks).
Proof.
  destruct artworks as [|a rest]; [apply unchanged_emit|].
  unfold show_artworks. apply unchanged_for_enumerate.
  intros. apply unchanged_render_step.
Qed.

Lemma show_artworks_quiet artworks s :
  Forall (fun a => has_image a = true) artworks ->
  fetched (trace (show_artworks artworks s)) = []
  /\ omap pace_of (trace (show_artworks artworks s)) = [].
Proof.
  intros Hall. pose proof (show_artworks_emits artworks Hall s) as Ht.
  split; apply omap_none; (eapply Forall_impl; [exact Ht|]);
    intros e [He| ->]; try reflexivity;
    destruct e; cbn in He; try discriminate; reflexivity.
Qed.

(** The run of the driver on a search result of at least one identifier,
    when every fetched value is a record or absent. *)
Lemma display_found search_term s ids :
  outcome (search_met_artworks search_term 20 s) = Ok (PList ids) ->
  ids <> [] ->
  let searched := search_met_artworks search_term 20 s in
  let loop := for_enumerate fetch_step 0 (take 6 ids) [] (final searched) in
  Forall record_or_absent (fetched (trace (display_artworks search_term s))) ->
  exists artworks,
    outcome loop = Ok artworks
    /\ artworks = List.filter has_image (fetched (trace loop))
    /\ fetched (trace (display_artworks search_term s)) = fetched (trace loop)
    /\ omap pace_of (trace loop) = schedule 0 (take 6 ids)
    /\ display_artworks search_term s =
       (outcome (show_artworks artworks (final loop)),
        final (show_artworks artworks (final loop)),
        search_heading search_term ++ trace searched ++ found_heading ids
          ++ trace loop ++ [EProgressEmpty; EStatusEmpty]
          ++ trace (show_artworks artworks (final loop))).
Proof.
  intros Hout Hids. cbv zeta.
  destruct (search_touches_no_details search_term 20 s) as (_ & _ & Hfetched & _).
  destruct (search_met_artworks search_term 20 s) as [[r s1] t1] eqn:Hsearch.
  cbn in Hout. subst r. rewrite !trace_triple, ?final_triple in *.
  rewrite (display_run _ _ _ _ _ Hsearch). rewrite (show_results_run ids s1 Hids).
  destruct (fetch_loop_spec (take 6 ids) 0 [] s1) as [Hkeep Hpace].
  pose proof (returns_fetch_loop (take 6 ids) 0 s1) as Himages.
  destruct (for_enumerate fetch_step 0 (take 6 ids) [] s1) as [[[artworks|e] s2] t2].
  - rewrite !outcome_triple, !final_triple, !trace_triple in *.
    specialize (Himages artworks eq_refl).
    destruct (show_artworks_quiet artworks s2 Himages) as [Hquiet _].
    assert (Hsame : fetched (search_heading search_term ++ t1 ++ found_heading ids
                      ++ t2 ++ [EProgressEmpty; EStatusEmpty]
                      ++ trace (show_artworks artworks s2)) = fetched t2).
    { unfold fetched in *. rewrite !omap_app, Hfetched, Hquiet. cbn.
      apply app_nil_r. }
    rewrite Hsame. intros Hall. exists artworks.
    split; [reflexivity|]. split; [apply (Hkeep artworks eq_refl)|].
    split; [reflexivity|]. split; [apply (Hpace Hall) | reflexivity].
  - rewrite !outcome_triple, !final_triple, !trace_triple in *.
    assert (Hsame : fetched (search_heading search_term ++ t1 ++ found_heading ids ++ t2)
                    = fetched t2).
    { unfold fetched in *. rewrite !omap_app, Hfetched. reflexivity. }
    rewrite Hsame. intros Hall. destruct (Hpace Hall) as [[artworks [=]] _].
Qed.

Lemma lacks_image_filter l : Forall lacks_image l -> List.filter has_image l = [].
Proof.
  intros H. induction H as [|v l [_ Hv] _ IH]; [reflexivity|].
  cbn. rewrite Hv. exact IH.
Qed.

Lemma lacks_image_record l : Forall lacks_image l -> Forall record_or_absent l.
Proof. intros H. eapply Forall_impl; [exact H|]. intros v [Hv _]. exact Hv. Qed.

(** C6: when the search returns at least one identifier and every fetched
    value is absent or a record without image, the driver shows the
    "No artworks with images found." notice and renders nothing. *)
Theorem all_without_image search_term s ids :
  outcome (search_met_artworks search_term 20 s) = Ok (PList ids) ->
  ids <> [] ->
  let run := display_artworks search_term s in
  Forall lacks_image (fetched (trace run)) ->
  outcome run = Ok tt
  /\ last (trace run) = Some no_images_found
  /\ Forall (fun e => render_event e = false) (trace run).
Proof.
  intros Hout Hids run Hall. subst run.
  destruct (display_found search_term s ids Hout Hids (lacks_image_record _ Hall))
    as (artworks & Hloop & Hkeep & Hsame & _ & Hrun).
  rewrite Hsame in Hall. rewrite (lacks_image_filter _ Hall) in Hkeep. subst artworks.
  rewrite Hrun. cbn [show_artworks]. unfold emit.
  rewrite !outcome_triple, !trace_triple.
  split; [reflexivity|]. split.
  - rewrite !app_assoc. apply last_snoc.
  - destruct (search_touches_no_details search_term 20 s) as (_ & _ & _ & _ & Hsearch).
    repeat (apply Forall_app; split); try exact Hsearch;
      try (repeat constructor; fail).
    eapply Forall_impl; [apply emits_fetch_loop|].
    intros e He. destruct e; cbn in He; try discriminate; reflexivity.
Qed.

Lemma all_without_image_witness :
  let run := display_artworks "bare" sample_state in
  outcome run = Ok tt
  /\ last (trace run) = Some no_images_found
  /\ Forall (fun e => render_event e = false) (trace run).
Proof.
  refine (all_without_image "bare" sample_state [PInt 2; PInt 3; PInt 4] _ _ _).
  - reflexivity.
  - discriminate.
  - vm_compute. repeat constructor.
Defined.







(** ** Which records are drawn *)

Lemma bind_prefixed {A B : Type} (m : M A) (k : A -> M B) s a s1 t1 :
  m s = (Ok a, s1, t1) -> bind m k s = prefixed t1 (k a s1).
Proof. apply bind_ok. Qed.

Lemma lift_bind {A B : Type} (a : A) (k : A -> M B) s :
  bind (lift (Ok a)) k s = k a s.
Proof. unfold bind, lift. destruct (k a s) as [[? ?] ?]. reflexivity. Qed.

Lemma py_get_field items key default :
  py_get (PDict items) key default = Ok (field_or items key default).
Proof. unfold py_get, field_or. destruct (dict_lookup key items); reflexivity. Qed.

Lemma write_if_present_run items key label s :
  write_if_present (PDict items) key label s
  = (Ok tt, s, match detail_line items (key, label) with
               | Some m => [EWrite m]
               | None => []
               end).
Proof.
  unfold write_if_present, detail_line. cbn [fst snd].
  rewrite py_get_field, lift_bind. unfold field_or. cbn [py_getitem].
  destruct (dict_lookup key items) as [x|]; [|reflexivity].
  destruct (py_truthy x); [|reflexivity].
  rewrite lift_bind. reflexivity.
Qed.

Lemma picture_run items s :
  (if py_truthy (field_or items "primaryImage" PNone) then
     let! src := lift (py_getitem (PDict items) "primaryImage") in
     let! caption := lift (py_get (PDict items) "title" (PStr "Untitled")) in
     st_image src caption
   else emit image_not_available) s
  = match refused (image_error s) items with
    | None => (Ok tt, s, [picture items])
    | Some e => (Raise e, s, [])
    end.
Proof.
  unfold picture, refused.
  destruct (py_truthy (field_or items "primaryImage" PNone)) eqn:Himage; [|reflexivity].
  unfold field_or in *. cbn [py_getitem].
  destruct (dict_lookup "primaryImage" items) as [image|]; [|discriminate].
  rewrite lift_bind, py_get_field, lift_bind. unfold st_image, field_or.
  destruct (image_error s image _); reflexivity.
Qed.

Lemma write_bind {B : Type} items key label (k : M B) s :
  (write_if_present (PDict items) key label >> k) s
  = prefixed (match detail_line items (key, label) with
              | Some m => [EWrite m]
              | None => []
              end) (k s).
Proof.
  exact (bind_prefixed (write_if_present (PDict items) key label) (fun _ => k) s tt s _
           (write_if_present_run items key label s)).
Qed.

Lemma prefixed_done {A : Type} p (r : result A) s t : prefixed p (r, s, t) = (r, s, p ++ t).
Proof. reflexivity. Qed.

(** One record: its card when the image is drawn, the columns alone and the
    exception of [st.image] otherwise. *)
Lemma render_step_run n i items s :
  render_step n i (PDict items) tt s
  = match refused (image_error s) items with
    | None => (Ok tt, s, card n i items)
    | Some e => (Raise e, s, [EColumns [1; 2]])
    end.
Proof.
  unfold render_step. rewrite emit_bind_prefixed.
  rewrite py_get_field, lift_bind.
  pose proof (picture_run items s) as Hpicture.
  destruct (refused (image_error s) items) as [e|].
  { rewrite (bind_raise _ _ _ _ _ _ Hpicture). reflexivity. }
  rewrite (bind_prefixed _ _ _ _ _ _ Hpicture).
  rewrite !py_get_field, !lift_bind.
  rewrite !emit_bind_prefixed. rewrite !write_bind.
  assert (Hlast : (if Z.ltb i (n - 1) then emit (EMarkdown "---") else ret tt) s
                  = (Ok tt, s, if Z.ltb i (n - 1) then [EMarkdown "---"] else [])).
  { destruct (Z.ltb i (n - 1)); reflexivity. }
  rewrite Hlast. rewrite !prefixed_prefixed, prefixed_done.
  unfold card, optional_fields. cbn [omap list_omap].
  f_equal. cbn [app]. do 6 f_equal.
  destruct (detail_line items ("medium", "**Medium:** ")),
           (detail_line items ("dimensions", "**Dimensions:** ")),
           (detail_line items ("department", "**Department:** ")),
           (detail_line items ("culture", "**Culture:** ")),
           (detail_line items ("classification", "**Classification:** ")),
           (detail_line items ("creditLine", "**Credit Line:** ")); reflexivity.
Qed.

Lemma has_image_dict a :
  has_image a = true ->
  exists items, a = PDict items /\ py_truthy (field_or items "primaryImage" PNone) = true.
Proof.
  destruct a as [| | | | | |items]; try discriminate. cbn. intros H.
  exists items. split; [reflexivity|]. unfold field_or.
  destruct (dict_lookup "primaryImage" items); [exact H | discriminate].
Qed.

(** The rendering loop draws the cards up to the first refusal, and ends
    when there is none. *)
Lemma render_loop_run n artworks : forall i s,
  Forall (fun a => has_image a = true) artworks ->
  trace (for_enumerate (render_step n) i artworks tt s) = cards (image_error s) n i artworks
  /\ (outcome (for_enumerate (render_step n) i artworks tt s) = Ok tt
      <-> drawn (image_error s) artworks = artworks).
Proof.
  induction artworks as [|a rest IH]; intros i s Hall; [split; [reflexivity | split; reflexivity]|].
  apply Forall_cons in Hall as [Ha Hrest].
  destruct (has_image_dict a Ha) as (items & -> & _).
  cbn [for_enumerate cards drawn].
  pose proof (render_step_run n i items s) as Hstep.
  destruct (refused (image_error s) items) as [e|].
  - rewrite (bind_raise _ _ _ _ _ _ Hstep). rewrite trace_triple, outcome_triple.
    split; [reflexivity|]. split; discriminate.
  - rewrite (bind_prefixed _ _ _ _ _ _ Hstep). unfold prefixed.
    rewrite trace_triple, outcome_triple.
    destruct (IH (i + 1) s Hrest) as [Htrace Hout]. rewrite Htrace.
    split; [reflexivity|]. rewrite Hout. split; [intros ->; reflexivity|].
    intros [= H]. exact H.
Qed.

Lemma omap_writes_none {B : Type} (f : event -> option B) (l : list message) :
  (forall m, f (EWrite m) = None) -> omap f (map EWrite l) = [].
Proof.
  intros Hf. induction l as [|m l IH]; [reflexivity|]. cbn. rewrite Hf. exact IH.
Qed.

Lemma images_card n i items :
  py_truthy (field_or items "primaryImage" PNone) = true ->
  images (card n i items) = [portrait (PDict items)].
Proof.
  intros Himage. unfold images, card, picture. rewrite Himage.
  rewrite !omap_app, omap_writes_none by reflexivity.
  destruct (Z.ltb i (n - 1)); reflexivity.
Qed.

Lemma images_cards check n artworks : forall i,
  Forall (fun a => has_image a = true) artworks ->
  images (cards check n i artworks) = map portrait (drawn check artworks).
Proof.
  induction artworks as [|a rest IH]; intros i Hall; [reflexivity|].
  apply Forall_cons in Hall as [Ha Hrest].
  destruct (has_image_dict a Ha) as (items & -> & Himage).
  cbn [cards drawn]. destruct (refused check items); [reflexivity|].
  cbn [map]. unfold images in *. rewrite omap_app.
  fold (images (card n i items)). rewrite (images_card n i items Himage).
  rewrite (IH (i + 1) Hrest). reflexivity.
Qed.

Lemma rules_card n i items :
  rules (card n i items) = if Z.ltb i (n - 1) then ["---"] else [].
Proof.
  unfold rules, card, picture.
  rewrite !omap_app, omap_writes_none by reflexivity.
  destruct (py_truthy (field_or items "primaryImage" PNone)), (Z.ltb i (n - 1));
    reflexivity.
Qed.

Lemma rules_cards check artworks : forall i,
  Forall (fun a => has_image a = true) artworks ->
  rules (cards check (i + Z.of_nat (length artworks)) i artworks)
    = replicate (Nat.min (length (drawn check artworks)) (length artworks - 1)) "---".
Proof.
  induction artworks as [|a rest IH]; intros i Hall; [reflexivity|].
  apply Forall_cons in Hall as [Ha Hrest].
  destruct (has_image_dict a Ha) as (items & -> & _).
  cbn [cards drawn length]. destruct (refused check items); [reflexivity|].
  unfold rules in *. rewrite omap_app.
  fold (rules (card (i + Z.of_nat (S (length rest))) i items)). rewrite rules_card.
  replace (i + Z.of_nat (S (length rest))) with (i + 1 + Z.of_nat (length rest)) by lia.
  rewrite (IH (i + 1) Hrest).
  destruct rest as [|b rest'].
  - cbn [length]. replace (Z.ltb i (i + 1 + Z.of_nat 0 - 1)) with false; [reflexivity|].
    symmetry. apply Z.ltb_ge. lia.
  - cbn [length]. replace (Z.ltb i (i + 1 + Z.of_nat (S (length rest')) - 1)) with true.
    + replace (S (S (length rest')) - 1)%nat with (S (S (length rest') - 1)) by lia.
      rewrite <- Nat.succ_min_distr. reflexivity.
    + symmetry. apply Z.ltb_lt. lia.
Qed.

Lemma show_artworks_run artworks s :
  Forall (fun a => has_image a = true) artworks ->
  images (trace (show_artworks artworks s)) = map portrait (drawn (image_error s) artworks)
  /\ rules (trace (show_artworks artworks s))
     = replicate (Nat.min (length (drawn (image_error s) artworks)) (length artworks - 1))
         "---"
  /\ (outcome (show_artworks artworks s) = Ok tt
      <-> drawn (image_error s) artworks = artworks).
Proof.
  intros Hall. destruct artworks as [|a rest].
  { repeat split; reflexivity. }
  unfold show_artworks.
  destruct (render_loop_run (Z.of_nat (length (a :: rest))) (a :: rest) 0 s Hall)
    as [Htrace Hout].
  rewrite Htrace. split; [apply images_cards; exact Hall|]. split; [|exact Hout].
  apply (rules_cards (image_error s) (a :: rest) 0 Hall).
Qed.

Lemma plumbing_draws_nothing t :
  Forall (fun e => search_event e = true \/ loop_event e = true) t ->
  images t = [] /\ rules t = [] /\ writes t = [].
Proof.
  intros H. repeat split; apply omap_none; (eapply Forall_impl; [exact H|]);
    intros e [He|He];
    destruct e as [[]|[]| | | | | | | | | | | | | | | | | | | |];
    cbn in He; try discriminate; reflexivity.
Qed.

(** What [st.image] makes of a source does not change during a run. *)
Lemma search_images query limit s :
  image_error (final (search_met_artworks query limit s)) = image_error s.
Proof.
  destruct (cache_hit (CSearch query limit) s) as [e|] eqn:Hhit.
  - unfold search_met_artworks. rewrite (cache_data_hit _ _ _ _ Hhit). reflexivity.
  - rewrite (search_miss _ _ _ Hhit). reflexivity.
Qed.

Lemma details_images object_id s :
  image_error (final (get_artwork_details object_id s)) = image_error s.
Proof.
  destruct (cache_hit (CDetails object_id) s) as [e|] eqn:Hhit.
  - unfold get_artwork_details. rewrite (cache_data_hit _ _ _ _ Hhit). reflexivity.
  - rewrite (details_miss _ _ Hhit). reflexivity.
Qed.

Lemma fetch_loop_images ids : forall i acc s,
  image_error (final (for_enumerate fetch_step i ids acc s)) = image_error s.
Proof.
  induction ids as [|object_id rest IH]; intros i acc s; [reflexivity|].
  cbn [for_enumerate].
  pose proof (details_images object_id s) as Himages.
  destruct (details_shape object_id s) as (v & s1 & pre & Hget & _).
  rewrite Hget, final_triple in Himages.
  pose proof (fetch_step_run i object_id acc s v s1 _ Hget) as Hstep.
  destruct (crashing v).
  - rewrite (bind_raise _ _ _ _ _ _ Hstep), final_triple. exact Himages.
  - rewrite (bind_ok _ _ _ _ _ _ Hstep), final_triple, IH. exact Himages.
Qed.

(** The images and rules of a run of the driver that reached the
    rendering. *)
Lemma display_images search_term s ids :
  outcome (search_met_artworks search_term 20 s) = Ok (PList ids) ->
  ids <> [] ->
  Forall record_or_absent (fetched (trace (display_artworks search_term s))) ->
  let kept := List.filter has_image (fetched (trace (display_artworks search_term s))) in
  images (trace (display_artworks search_term s)) = map portrait (drawn (image_error s) kept)
  /\ rules (trace (display_artworks search_term s))
     = replicate (Nat.min (length (drawn (image_error s) kept)) (length kept - 1)) "---"
  /\ (outcome (display_artworks search_term s) = Ok tt
      <-> drawn (image_error s) kept = kept).
Proof.
  intros Hout Hids Hall. cbv zeta.
  destruct (display_found search_term s ids Hout Hids Hall)
    as (artworks & Hloop & Hkeep & Hsame & _ & Hrun).
  rewrite Hsame, <- Hkeep. rewrite Hrun, trace_triple, outcome_triple.
  assert (Himages : Forall (fun a => has_image a = true) artworks).
  { eapply returns_fetch_loop. exact Hloop. }
  destruct (show_artworks_run artworks
              (final (for_enumerate fetch_step 0 (take 6 ids) []
                        (final (search_met_artworks search_term 20 s)))) Himages)
    as (Hi & Hr & Ho).
  rewrite fetch_loop_images, search_images in Hi, Hr, Ho.
  destruct (plumbing_draws_nothing (trace (search_met_artworks search_term 20 s)))
    as (Hsi & Hsr & _).
  { eapply Forall_impl; [apply emits_search_events|]. intros e He. left. exact He. }
  destruct (plumbing_draws_nothing
              (trace (for_enumerate fetch_step 0 (take 6 ids) []
                        (final (search_met_artworks search_term 20 s)))))
    as (Hli & Hlr & _).
  { eapply Forall_impl; [apply emits_fetch_loop|]. intros e He. right. exact He. }
  split; [|split; [|exact Ho]].
  - unfold images in *. rewrite !omap_app, Hsi, Hli, Hi. reflexivity.
  - unfold rules in *. rewrite !omap_app, Hsr, Hlr, Hr. reflexivity.
Qed.

(** ** C1: which records are rendered *)

(** The notices of one turn of the fetch loop are those of its fetch. *)
Lemma fetch_step_errors i artwork_id artworks s :
  errors_of (trace (fetch_step i artwork_id artworks s))
  = errors_of (trace (get_artwork_details artwork_id s)).
Proof.
  destruct (details_shape artwork_id s) as (v & s1 & pre & Hget & _).
  rewrite (fetch_step_run i artwork_id artworks s v s1 _ Hget), Hget.
  destruct (crashing v); rewrite !trace_triple; [reflexivity|].
  unfold errors_of.
  change (loading i :: (pre ++ [ECall (CDetails artwork_id) v])
            ++ [EProgress (i + 1) 6; ESleep 100])
    with ([loading i] ++ (pre ++ [ECall (CDetails artwork_id) v])
            ++ [EProgress (i + 1) 6; ESleep 100]).
  rewrite !omap_app. cbn. rewrite !app_nil_r. reflexivity.
Qed.

(** One turn of the loop on a fetch that is not served from the cache. *)
Lemma fetch_step_miss i artwork_id artworks s :
  cache_hit (CDetails artwork_id) s = None ->
  let eval := details_eval (network s (requests_made s) (ObjectRequest artwork_id)) in
  record_or_absent eval.1 ->
  outcome (fetch_step i artwork_id artworks s)
    = Ok (if has_image eval.1 then artworks ++ [eval.1] else artworks)
  /\ errors_of (trace (fetch_step i artwork_id artworks s)) = eval.2.
Proof.
  intros Hmiss eval Hrec. subst eval.
  pose proof (details_miss _ _ Hmiss) as Hget. cbv zeta in Hget.
  rewrite fetch_step_errors.
  rewrite (fetch_step_run i artwork_id artworks s _ _ _ Hget), Hget.
  rewrite (record_not_crashing _ Hrec), outcome_triple, trace_triple.
  split; [reflexivity|].
  unfold errors_of. cbn [omap list_omap]. rewrite omap_app. cbn [omap list_omap].
  rewrite app_nil_r. clear Hget Hrec.
  induction (details_eval _).2 as [|m l IH]; [reflexivity|].
  cbn. rewrite IH. reflexivity.
Qed.

(** C1, amended: a fetched value that is a record or absent is added to the
    artworks to render exactly when it has an image ([primaryImage] present
    and true in a condition); otherwise it is dropped, and the loop adds no
    notice of its own to those of the fetch.  The fetch is silent when it
    returns absent for a status other than 200, and when it returns a record
    without image; when it returns absent because the request or the JSON
    parser raised, it has shown its error notice, so that dropped fetch is
    not silent.  Over the whole loop the artworks to render are the fetched
    values that have an image, in the order they were fetched; and the
    images a run of the driver draws are those of these artworks, in order,
    up to the first one that [st.image] refuses: all of them exactly when
    the run ends without an exception. *)
Theorem record_kept_iff_image :
  (forall i artwork_id artworks s v s1 t1,
     get_artwork_details artwork_id s = (Ok v, s1, t1) ->
     record_or_absent v ->
     fetch_step i artwork_id artworks s
       = (Ok (if has_image v then artworks ++ [v] else artworks),
          set_clock (clock s1 + 100)%N s1,
          loading i :: t1 ++ [EProgress (i + 1) 6; ESleep 100])
     /\ errors_of (trace (fetch_step i artwork_id artworks s)) = errors_of t1)
  /\ (forall i artwork_id artworks s,
     cache_hit (CDetails artwork_id) s = None ->
     let rep := network s (requests_made s) (ObjectRequest artwork_id) in
     let turn := fetch_step i artwork_id artworks s in
     (forall resp, answer rep = Ok resp -> status_code resp <> 200 ->
        outcome turn = Ok artworks /\ errors_of (trace turn) = [])
     /\ (forall resp v, answer rep = Ok resp -> status_code resp = 200 ->
        json resp = Some v -> record_or_absent v -> has_image v = false ->
        outcome turn = Ok artworks /\ errors_of (trace turn) = [])
     /\ (forall e, answer rep = Raise e ->
        outcome turn = Ok artworks
        /\ errors_of (trace turn) = [[FText "获取艺术品详情时发生错误: "; FExn e]])
     /\ (forall resp, answer rep = Ok resp -> status_code resp = 200 ->
        json resp = None ->
        outcome turn = Ok artworks
        /\ errors_of (trace turn)
           = [[FText "获取艺术品详情时发生错误: "; FExn JSONDecodeError]]))
  /\ (forall ids i s,
     let run := for_enumerate fetch_step i ids [] s in
     Forall record_or_absent (fetched (trace run)) ->
     outcome run = Ok (List.filter has_image (fetched (trace run))))
  /\ (forall search_term s ids,
     outcome (search_met_artworks search_term 20 s) = Ok (PList ids) ->
     ids <> [] ->
     let run := display_artworks search_term s in
     Forall record_or_absent (fetched (trace run)) ->
     let kept := List.filter has_image (fetched (trace run)) in
     images (trace run) = map portrait (drawn (image_error s) kept)
     /\ (outcome run = Ok tt <-> drawn (image_error s) kept = kept)).
Proof.
  split; [|split; [|split]].
  - intros i artwork_id artworks s v s1 t1 Hget Hrec.
    rewrite (fetch_step_run i artwork_id artworks s v s1 t1 Hget).
    rewrite (record_not_crashing v Hrec). split; [reflexivity|].
    rewrite trace_triple. unfold errors_of.
    change (loading i :: t1 ++ [EProgress (i + 1) 6; ESleep 100])
      with ([loading i] ++ t1 ++ [EProgress (i + 1) 6; ESleep 100]).
    rewrite !omap_app. cbn. apply app_nil_r.
  - intros i artwork_id artworks s Hmiss. cbv zeta.
    pose proof (fetch_step_miss i artwork_id artworks s Hmiss) as Hturn.
    cbv zeta in Hturn. unfold details_eval in Hturn.
    split; [|split; [|split]].
    + intros resp Hans Hstatus. apply Z.eqb_neq in Hstatus.
      rewrite Hans, Hstatus in Hturn. exact (Hturn I).
    + intros resp v Hans Hstatus Hjson Hrec Himage.
      rewrite Hans, Hstatus, Hjson in Hturn. cbn in Hturn.
      rewrite Himage in Hturn. exact (Hturn Hrec).
    + intros e Hans. rewrite Hans in Hturn. exact (Hturn I).
    + intros resp Hans Hstatus Hjson.
      rewrite Hans, Hstatus, Hjson in Hturn. exact (Hturn I).
  - intros ids i s run Hall. subst run.
    destruct (fetch_loop_spec ids i [] s) as [Hkeep Hpace].
    destruct (Hpace Hall) as [[artworks Hout] _].
    rewrite Hout. f_equal. apply (Hkeep artworks Hout).
  - intros search_term s ids Hout Hids run Hall kept. subst run kept.
    destruct (display_images search_term s ids Hout Hids Hall) as (Hi & _ & Ho).
    cbv zeta in *. split; [exact Hi | exact Ho].
Qed.

Lemma record_kept_iff_image_witness :
  (outcome (fetch_step 0 (PInt 1) [] sample_state) = Ok [rose]
   /\ outcome (fetch_step 1 (PInt 2) [rose] sample_state) = Ok [rose]
   /\ (outcome (fetch_step 2 (PInt 4) [rose] sample_state) = Ok [rose]
       /\ errors_of (trace (fetch_step 2 (PInt 4) [rose] sample_state)) = [])
   /\ outcome (for_enumerate fetch_step 0 [PInt 1; PInt 2; PInt 3; PInt 4] [] sample_state)
      = Ok [rose])
  /\ (images (trace (display_artworks "flower" sample_state))
       = [(PStr "https://images.metmuseum.org/rose.jpg", PStr "Roses")]
      /\ outcome (display_artworks "flower" sample_state) = Ok tt).
Proof.
  pose proof record_kept_iff_image as (Hstep & Hturn & Hloop & Hdraw).
  split; [split; [|split; [|split]]|].
  - refine (f_equal outcome (proj1 (Hstep 0 (PInt 1) [] sample_state rose
      (final (get_artwork_details (PInt 1) sample_state))
      (trace (get_artwork_details (PInt 1) sample_state)) _ I))).
    vm_compute. reflexivity.
  - refine (f_equal outcome (proj1 (Hstep 1 (PInt 2) [rose] sample_state tulip
      (final (get_artwork_details (PInt 2) sample_state))
      (trace (get_artwork_details (PInt 2) sample_state)) _ I))).
    vm_compute. reflexivity.
  - refine (proj1 (Hturn 2 (PInt 4) [rose] sample_state _) (Response 404 None) _ _);
      first [reflexivity | discriminate].
  - refine (Hloop [PInt 1; PInt 2; PInt 3; PInt 4] 0 sample_state _).
    vm_compute. repeat constructor.
  - assert (Hall : Forall record_or_absent
                     (fetched (trace (display_artworks "flower" sample_state)))).
    { vm_compute. repeat constructor. }
    destruct (Hdraw "flower" sample_state [PInt 1; PInt 2; PInt 3]
                eq_refl ltac:(discriminate) Hall) as [Hi Ho].
    split; [exact Hi|]. apply Ho. vm_compute. reflexivity.
Defined.

(** A detail fetch whose request times out returns absent and is dropped,
    but not silently: the run shows the error notice of the fetch. *)
Lemma dropped_with_a_notice_counterexample :
  outcome (get_artwork_details (PInt 5) sample_state) = Ok PNone
  /\ outcome (fetch_step 4 (PInt 5) [rose] sample_state) = Ok [rose]
  /\ errors_of (trace (fetch_step 4 (PInt 5) [rose] sample_state))
     = [[FText "获取艺术品详情时发生错误: "; FExn (RequestException "timed out")]]
  /\ In (PInt 5) (detail_calls (trace (display_artworks "garden" sample_state)))
  /\ In [FText "获取艺术品详情时发生错误: "; FExn (RequestException "timed out")]
       (errors_of (trace (display_artworks "garden" sample_state))).
Proof.
  split; [reflexivity|]. split; [reflexivity|]. split; [reflexivity|].
  split; vm_compute; tauto.
Qed.

(** ** C10: the fallback text *)

Lemma emits_session_set (P : event -> Prop) key v : emits P (session_set key v).
Proof. intros s. constructor. Qed.

Lemma emits_session_del (P : event -> Prop) key : emits P (session_del key).
Proof. intros s. constructor. Qed.

Lemma emits_get_session (P : event -> Prop) : emits P get_session.
Proof. intros s. constructor. Qed.

Lemma display_never_falls_back search_term :
  emits (fun e => e <> image_not_available) (display_artworks search_term).
Proof.
  apply emits_display_artworks;
    try (intros e He ->; cbn in He; discriminate He);
    intros; discriminate.
Qed.

Lemma emits_st_button_keyed (P : event -> Prop) label key pressed :
  P (EButton label) -> emits P (st_button_keyed label key pressed).
Proof.
  intros H. unfold st_button_keyed.
  apply emits_bind; [apply emits_emit; exact H | intros _].
  apply emits_bind; [apply emits_session_set | intros _]. apply emits_ret.
Qed.

Lemma main_never_falls_back w :
  emits (fun e => e <> image_not_available) (main w).
Proof.
  unfold main.
  repeat (apply emits_bind;
          [first [apply emits_emit; discriminate
                 | apply emits_st_button_keyed; discriminate
                 | match goal with
                   | |- emits _ (if ?b then _ else _) =>
                       destruct b; [apply emits_session_set | apply emits_ret]
                   end]
          | intros ?]).
  apply emits_bind; [apply emits_get_session | intros session].
  apply emits_bind.
  { destruct (session !! "search_term") as [term|].
    - apply emits_bind; [apply emits_session_del | intros _; apply emits_ret].
    - destruct (custom_search_btn w && nonempty (custom_search w));
        [apply emits_ret|].
      destruct (nonempty (custom_search w)); apply emits_ret. }
  intros search_term.
  apply emits_bind.
  { destruct (py_truthy search_term); [apply display_never_falls_back|].
    unfold display_example_artworks.
    apply emits_bind; [apply emits_emit; discriminate | intros _].
    apply emits_emit; discriminate. }
  intros _.
  repeat (apply emits_bind; [apply emits_emit; discriminate | intros _]).
  apply emits_emit; discriminate.
Qed.

(** C10: every artwork the fetch loop hands to the rendering has a
    [primaryImage] that is true in a condition, and no run of the driver,
    nor of the whole script, ever shows the "Image not available" text. *)
Theorem fallback_unreachable :
  (forall ids i s,
     match outcome (for_enumerate fetch_step i ids [] s) with
     | Ok artworks => Forall (fun a => has_image a = true) artworks
     | Raise _ => True
     end)
  /\ (forall search_term s,
        ~ In image_not_available (trace (display_artworks search_term s)))
  /\ (forall w s, ~ In image_not_available (trace (main w s))).
Proof.
  split; [|split].
  - intros ids i s.
    destruct (outcome (for_enumerate fetch_step i ids [] s)) as [artworks|e] eqn:Hout;
      [|exact I].
    apply (returns_fetch_loop ids i s artworks Hout).
  - intros search_term s Hin.
    pose proof (display_never_falls_back search_term s) as H.
    rewrite Forall_forall in H. apply list_elem_of_In in Hin.
    apply (H _ Hin). reflexivity.
  - intros w s Hin.
    pose proof (main_never_falls_back w s) as H.
    rewrite Forall_forall in H. apply list_elem_of_In in Hin.
    apply (H _ Hin). reflexivity.
Qed.

(** ** One run of the script *)

Lemma button_bind {B : Type} label key pressed (k : bool -> M B) s :
  bind (st_button_keyed label key pressed) k s
  = prefixed [EButton label]
      (k pressed (set_session_state (<[key := PBool pressed]> (session_state s)) s)).
Proof.
  unfold st_button_keyed, bind, emit, session_set, ret, prefixed. cbn.
  destruct (k _ _) as [[? ?] ?]. reflexivity.
Qed.

Lemma preset_bind {B : Type} (pressed : bool) term (k : M B) s :
  ((if pressed then session_set "search_term" term else ret tt) >> k) s
  = k (if pressed
       then set_session_state (<["search_term" := term]> (session_state s)) s
       else s).
Proof.
  unfold bind. destruct pressed; cbn; destruct (k _) as [[? ?] ?]; reflexivity.
Qed.

Lemma get_session_bind {B : Type} (k : gmap string pyval -> M B) s :
  bind get_session k s = k (session_state s) s.
Proof. unfold bind, get_session. destruct (k _ _) as [[? ?] ?]. reflexivity. Qed.

(** The choice of the search term, as one step. *)
Lemma choose_bind w {B : Type} (k : pyval -> M B) s :
  bind (match session_state s !! "search_term" with
        | Some term => session_del "search_term" >> ret term
        | None =>
            if custom_search_btn w && nonempty (custom_search w)
            then ret (PStr (custom_search w))
            else if nonempty (custom_search w) then ret (PStr (custom_search w))
                 else ret PNone
        end) k s
  = k (chosen_term w (session_state s))
      (set_session_state (delete "search_term" (session_state s)) s).
Proof.
  unfold chosen_term. destruct s as [c r n im ca sess]. cbn [session_state].
  destruct (sess !! "search_term") as [term|] eqn:Hlook.
  - unfold bind, session_del, ret. cbn.
    destruct (k _ _) as [[? ?] ?]. reflexivity.
  - rewrite (delete_id _ _ Hlook). unfold set_session_state. cbn.
    destruct (custom_search_btn w), (nonempty (custom_search w)); cbn;
      unfold bind, ret; destruct (k _ _) as [[? ?] ?]; reflexivity.
Qed.

Lemma presets_state w s :
  let s1 := set_session_state (<["flower_btn" := PBool (flower_btn w)]> (session_state s)) s in
  let s2 := if flower_btn w
            then set_session_state (<["search_term" := PStr "flower"]> (session_state s1)) s1
            else s1 in
  let s3 := set_session_state
              (<["chinese_bird_btn" := PBool (chinese_bird_btn w)]> (session_state s2)) s2 in
  (if chinese_bird_btn w
   then set_session_state
          (<["search_term" := PStr "Chinese figure with bird"]> (session_state s3)) s3
   else s3)
  = set_session_state (presets w (session_state s)) s.
Proof.
  destruct s as [c r n im ca sess]. unfold presets.
  destruct (flower_btn w), (chinese_bird_btn w); reflexivity.
Qed.

Lemma main_run w s :
  let session := presets w (session_state s) in
  let s1 := set_session_state (delete "search_term" session) s in
  let body := page (chosen_term w session) s1 in
  main w s =
    match outcome body with
    | Ok _ => (Ok tt, final body, main_heading ++ trace body ++ main_footer)
    | Raise e => (Raise e, final body, main_heading ++ trace body)
    end.
Proof.
  cbv zeta. unfold main.
  rewrite !emit_bind_prefixed. rewrite button_bind, preset_bind.
  rewrite button_bind, preset_bind.
  rewrite !emit_bind_prefixed. rewrite get_session_bind, choose_bind.
  rewrite !prefixed_prefixed.
  pose proof (presets_state w s) as Hpresets. cbv zeta in Hpresets. rewrite Hpresets.
  change (session_state (set_session_state ?m s)) with m.
  change (set_session_state ?m (set_session_state ?m' s)) with (set_session_state m s).
  fold (page (chosen_term w (presets w (session_state s)))).
  cbn [app]. fold main_heading.
  unfold prefixed, bind.
  destruct (page _ _) as [[[[]|e] s2] t2]; cbn [outcome final trace fst snd];
    reflexivity.
Qed.

(** ** The session state is touched by [main] alone *)

Lemma keeps_ret {A : Type} (a : A) : keeps_session (ret a).
Proof. intros s. reflexivity. Qed.

Lemma keeps_lift {A : Type} (r : result A) : keeps_session (lift r).
Proof. intros s. reflexivity. Qed.

Lemma keeps_emit e : keeps_session (emit e).
Proof. intros s. reflexivity. Qed.

Lemma keeps_sleep ms : keeps_session (sleep ms).
Proof. intros s. reflexivity. Qed.

Lemma keeps_bind {A B : Type} (m : M A) (k : A -> M B) :
  keeps_session m -> (forall a, keeps_session (k a)) -> keeps_session (bind m k).
Proof.
  intros Hm Hk s. specialize (Hm s). unfold bind.
  destruct (m s) as [[[a|e] s1] t1]; cbn in *; [|exact Hm].
  specialize (Hk a s1). destruct (k a s1) as [[r s2] t2]. cbn in *.
  rewrite Hk. exact Hm.
Qed.

Lemma keeps_for_enumerate {A B : Type} (body : Z -> A -> B -> M B) xs :
  (forall i x acc, keeps_session (body i x acc)) ->
  forall i acc, keeps_session (for_enumerate body i xs acc).
Proof.
  intros Hbody. induction xs as [|x rest IH]; intros i acc; cbn.
  - apply keeps_ret.
  - apply keeps_bind; [apply Hbody | intros acc'; apply IH].
Qed.

Lemma keeps_cache_data c body :
  keeps_session body -> keeps_session (cache_data c body).
Proof.
  intros Hbody s. unfold cache_data.
  destruct (cache_hit c s); [reflexivity|].
  specialize (Hbody s). destruct (body s) as [[[v|e] s1] t1]; exact Hbody.
Qed.

Lemma keeps_search query limit : keeps_session (search_met_artworks query limit).
Proof.
  apply keeps_cache_data. intros s. rewrite search_body_run. reflexivity.
Qed.

Lemma keeps_details object_id : keeps_session (get_artwork_details object_id).
Proof.
  apply keeps_cache_data. intros s. rewrite details_body_run. reflexivity.
Qed.

Lemma keeps_st_image src caption : keeps_session (st_image src caption).
Proof. intros s. rewrite unchanged_st_image. reflexivity. Qed.

Ltac keeps :=
  repeat first
    [ apply keeps_ret | apply keeps_lift | apply keeps_emit | apply keeps_sleep
    | apply keeps_st_image
    | apply keeps_search | apply keeps_details
    | apply keeps_bind; [|intros ?]
    | match goal with
      | |- keeps_session (if ?b then _ else _) => destruct b
      end ].

Lemma keeps_fetch_step i object_id acc : keeps_session (fetch_step i object_id acc).
Proof. unfold fetch_step. keeps. Qed.

Lemma keeps_render_step n i artwork u : keeps_session (render_step n i artwork u).
Proof. unfold render_step, write_if_present. keeps. Qed.

Ltac keeps_loops :=
  repeat first
    [ progress keeps
    | apply keeps_for_enumerate; intros;
      first [apply keeps_fetch_step | apply keeps_render_step]
    | match goal with
      | |- keeps_session (match ?a with [] => _ | _ :: _ => _ end) => destruct a
      end ].

Lemma keeps_display_artworks search_term : keeps_session (display_artworks search_term).
Proof. unfold display_artworks, show_results. keeps_loops. Qed.

Lemma keeps_page search_term : keeps_session (page search_term).
Proof.
  unfold page. destruct (py_truthy search_term); [apply keeps_display_artworks|].
  unfold display_example_artworks. keeps.
Qed.

(** ** C9: which runs of the script search *)

Lemma display_search_calls search_term s :
  search_calls (trace (display_artworks search_term s)) = [(search_term, 20)].
Proof.
  destruct (search_shape search_term 20 s) as (v & s1 & pre & Hsearch & Hpre).
  rewrite (display_run _ _ _ _ _ Hsearch), trace_triple.
  unfold search_calls. rewrite !omap_app.
  rewrite (omap_quiet _ pre); [|intros [] He; try discriminate; reflexivity | exact Hpre].
  rewrite (omap_none _ (trace (show_results v s1))); [reflexivity|].
  apply (emits_show_results
           (fun e => match e with ECall (CSearch q l) _ => Some (q, l) | _ => None end = None));
    try reflexivity;
    intros [[]|[]| | | | | | | | | | | | | | | | | | | |] He;
    cbn in He; try discriminate; reflexivity.
Qed.

Lemma page_search_calls search_term s :
  search_calls (trace (page search_term s))
  = if py_truthy search_term then [(search_term, 20)] else [].
Proof.
  unfold page. destruct (py_truthy search_term); [apply display_search_calls | reflexivity].
Qed.

Lemma main_search_calls w s :
  search_calls (trace (main w s))
  = if py_truthy (chosen_term w (presets w (session_state s)))
    then [(chosen_term w (presets w (session_state s)), 20)] else [].
Proof.
  rewrite main_run. cbv zeta.
  rewrite <- (page_search_calls _
    (set_session_state (delete "search_term" (presets w (session_state s))) s)).
  destruct (outcome (page _ _)); rewrite trace_triple; unfold search_calls;
    rewrite !omap_app; cbn; rewrite ?app_nil_r; reflexivity.
Qed.

Lemma main_session w s :
  session_state (final (main w s)) = delete "search_term" (presets w (session_state s)).
Proof.
  rewrite main_run. cbv zeta.
  pose proof (keeps_page (chosen_term w (presets w (session_state s)))
    (set_session_state (delete "search_term" (presets w (session_state s))) s)) as H.
  destruct (outcome (page _ _)); rewrite final_triple; exact H.
Qed.

Lemma run_passes_cons w ws s :
  run_passes (w :: ws) s
  = ((run_passes ws (final (main w s))).1,
     trace (main w s) ++ (run_passes ws (final (main w s))).2).
Proof.
  change (run_passes (w :: ws) s)
    with (let '(_, s1, t1) := main w s in
          let '(s2, t2) := run_passes ws s1 in (s2, t1 ++ t2)).
  destruct (main w s) as [[r s1] t1]. rewrite final_triple, trace_triple.
  destruct (run_passes ws s1) as [s2 t2]. reflexivity.
Qed.

Lemma presets_idle text session :
  presets (refresh text) session !! "search_term" = session !! "search_term".
Proof.
  unfold presets, refresh. cbn.
  rewrite !lookup_insert_ne by discriminate. reflexivity.
Qed.

Lemma refresh_search_calls text s :
  session_state s !! "search_term" = None ->
  search_calls (trace (main (refresh text) s))
    = (if nonempty text then [(PStr text, 20)] else [])
  /\ session_state (final (main (refresh text) s)) !! "search_term" = None.
Proof.
  intros Hnone. split.
  - rewrite main_search_calls. unfold chosen_term.
    rewrite presets_idle, Hnone. cbn [custom_search refresh].
    destruct (nonempty text) eqn:Htext; [|reflexivity].
    cbn [py_truthy]. unfold nonempty in Htext. rewrite Htext. reflexivity.
  - rewrite main_session. apply lookup_delete_eq.
Qed.

Lemma refreshes_search_calls text n : forall s,
  session_state s !! "search_term" = None ->
  search_calls (run_passes (replicate n (refresh text)) s).2
    = if nonempty text then replicate n (PStr text, 20) else [].
Proof.
  induction n as [|n IH]; intros s Hnone.
  - cbn. destruct (nonempty text); reflexivity.
  - rewrite replicate_S, run_passes_cons. cbn [snd].
    destruct (refresh_search_calls text s Hnone) as [Hcalls Hnext].
    unfold search_calls in *. rewrite omap_app, Hcalls, (IH _ Hnext).
    destruct (nonempty text); reflexivity.
Qed.

Lemma preset_search_calls w s term :
  presets w (session_state s) !! "search_term" = Some term ->
  py_truthy term = true ->
  forall n,
  search_calls (run_passes (w :: replicate n (refresh "")) s).2 = [(term, 20)]
  /\ session_state (final (main w s)) !! "search_term" = None.
Proof.
  intros Hterm Htruthy n.
  assert (Hnext : session_state (final (main w s)) !! "search_term" = None).
  { rewrite main_session. apply lookup_delete_eq. }
  split; [|exact Hnext].
  rewrite run_passes_cons. cbn [snd]. unfold search_calls.
  rewrite omap_app. fold (search_calls (trace (main w s))).
  fold (search_calls (run_passes (replicate n (refresh "")) (final (main w s))).2).
  rewrite (refreshes_search_calls "" n _ Hnext). cbn [nonempty String.eqb negb].
  rewrite main_search_calls. unfold chosen_term. rewrite Hterm, Htruthy.
  reflexivity.
Qed.

(** C9: a run of the script with a text in the field, no preset term
    pending and no button pressed searches for that text, and so does every
    further such run; a press of a preset button searches for its term once:
    the term is deleted from the session state in the same run, and later
    runs with an empty field search for nothing. *)
Theorem free_text_searches_every_run :
  (forall w s,
     flower_btn w = false -> chinese_bird_btn w = false ->
     custom_search_btn w = false ->
     session_state s !! "search_term" = None ->
     custom_search w <> "" ->
     search_calls (trace (main w s)) = [(PStr (custom_search w), 20)])
  /\ (forall text n s,
     text <> "" ->
     session_state s !! "search_term" = None ->
     search_calls (run_passes (replicate n (refresh text)) s).2
       = replicate n (PStr text, 20))
  /\ (forall w n s,
     flower_btn w = true -> chinese_bird_btn w = false ->
     search_calls (run_passes (w :: replicate n (refresh "")) s).2
       = [(PStr "flower", 20)]
     /\ session_state (final (main w s)) !! "search_term" = None)
  /\ (forall w n s,
     chinese_bird_btn w = true ->
     search_calls (run_passes (w :: replicate n (refresh "")) s).2
       = [(PStr "Chinese figure with bird", 20)]
     /\ session_state (final (main w s)) !! "search_term" = None).
Proof.
  split; [|split; [|split]].
  - intros w s Hflower Hbird Hbtn Hnone Htext.
    rewrite main_search_calls. unfold chosen_term, presets.
    rewrite Hflower, Hbird. rewrite !lookup_insert_ne by discriminate. rewrite Hnone.
    apply String.eqb_neq in Htext. unfold nonempty. rewrite Htext. cbn.
    rewrite Htext. reflexivity.
  - intros text n s Htext Hnone.
    rewrite (refreshes_search_calls text n s Hnone).
    apply String.eqb_neq in Htext. unfold nonempty. rewrite Htext. reflexivity.
  - intros w n s Hflower Hbird.
    apply preset_search_calls; [|reflexivity].
    unfold presets. rewrite Hflower, Hbird.
    rewrite lookup_insert_ne by discriminate. apply lookup_insert_eq.
  - intros w n s Hbird.
    apply preset_search_calls; [|reflexivity].
    unfold presets. rewrite Hbird. apply lookup_insert_eq.
Qed.

Lemma free_text_searches_every_run_witness :
  search_calls (trace (main (refresh "garden") sample_state)) = [(PStr "garden", 20)]
  /\ search_calls (run_passes (replicate 3 (refresh "garden")) sample_state).2
     = [(PStr "garden", 20); (PStr "garden", 20); (PStr "garden", 20)]
  /\ search_calls
       (run_passes (Widgets true false "" false :: replicate 3 (refresh "")) sample_state).2
     = [(PStr "flower", 20)]
  /\ search_calls
       (run_passes (Widgets false true "" false :: replicate 3 (refresh "")) sample_state).2
     = [(PStr "Chinese figure with bird", 20)].
Proof.
  pose proof free_text_searches_every_run as (Hone & Hmany & Hflower & Hbird).
  split; [|split; [|split]].
  - refine (Hone (refresh "garden") sample_state _ _ _ _ _);
      first [reflexivity | discriminate].
  - refine (Hmany "garden" 3%nat sample_state _ _); first [reflexivity | discriminate].
  - refine (proj1 (Hflower (Widgets true false "" false) 3%nat sample_state _ _));
      reflexivity.
  - refine (proj1 (Hbird (Widgets false true "" false) 3%nat sample_state _));
      reflexivity.
Defined.

(** ** C8: memoization *)

Lemma idle_bind {B : Type} d (k : M B) s :
  (idle d >> k) s = k (set_clock (clock s + d)%N s).
Proof. unfold bind, idle. destruct (k _) as [[? ?] ?]. reflexivity. Qed.

Lemma bind_ret_run {A B : Type} (m : M A) (f : A -> B) s :
  (let! a := m in ret (f a)) s
  = (match outcome (m s) with Ok a => Ok (f a) | Raise e => Raise e end,
     final (m s), trace (m s)).
Proof.
  unfold bind, ret. destruct (m s) as [[[a|e] s1] t1]; cbn; [|reflexivity].
  rewrite app_nil_r. reflexivity.
Qed.

Section Memoized.
Variable c : call.
Variable body : M pyval.
Variable r : request.
Hypothesis body_run :
  forall s, exists v s1 l, body s = (Ok v, s1, EHttpGet r :: map EError l).

Lemma http_gets_errors l t : http_gets (map EError l ++ t) = http_gets t.
Proof.
  unfold http_gets. rewrite omap_app.
  rewrite (omap_none _ (map EError l)); [reflexivity|].
  apply Forall_map. apply Forall_true. intros m. reflexivity.
Qed.

Lemma hit_run s e :
  cache_lookup c (cache s) = Some e ->
  (clock s < stored_at e + ttl)%N ->
  outcome (cache_data c body s) = Ok (value e)
  /\ final (cache_data c body s) = s
  /\ http_gets (trace (cache_data c body s)) = [].
Proof.
  intros Hlook Hfresh.
  assert (Hhit : cache_hit c s = Some e).
  { unfold cache_hit, fresh. rewrite Hlook.
    apply N.ltb_lt in Hfresh. rewrite Hfresh. reflexivity. }
  rewrite (cache_data_hit _ _ _ _ Hhit).
  rewrite outcome_triple, final_triple, trace_triple, http_gets_errors.
  repeat split.
Qed.

Lemma miss_run s :
  cache_hit c s = None ->
  exists v e,
    outcome (cache_data c body s) = Ok v
    /\ http_gets (trace (cache_data c body s)) = [r]
    /\ cache_lookup c (cache (final (cache_data c body s))) = Some e
    /\ value e = v
    /\ stored_at e = clock (final (cache_data c body s)).
Proof.
  intros Hmiss. destruct (body_run s) as (v & s1 & l & Hbody).
  rewrite (cache_data_miss _ _ _ _ _ _ _ Hmiss Hbody).
  rewrite outcome_triple, final_triple, trace_triple.
  exists v, (Entry (clock s1) v l).
  split; [reflexivity|]. split.
  - change (EHttpGet r :: map EError l ++ [ECall c v])
      with ([EHttpGet r] ++ map EError l ++ [ECall c v]).
    unfold http_gets at 1. rewrite omap_app. fold (http_gets (map EError l ++ [ECall c v])).
    rewrite http_gets_errors. reflexivity.
  - unfold after_store. cbn. destruct (decide (c = c)); [|contradiction].
    repeat split.
Qed.

Lemma again_run d rest s :
  let s' := set_clock (clock s + d)%N s in
  let first := cache_data c body s' in
  forall v, outcome first = Ok v ->
  let others := again (cache_data c body) rest (final first) in
  outcome (again (cache_data c body) (d :: rest) s)
    = match outcome others with Ok vs => Ok (v :: vs) | Raise e => Raise e end
  /\ http_gets (trace (again (cache_data c body) (d :: rest) s))
     = http_gets (trace first) ++ http_gets (trace others).
Proof.
  cbv zeta. intros v Hv. cbn [again]. rewrite idle_bind.
  destruct (cache_data c body (set_clock (clock s + d)%N s)) as [[res s1] t1] eqn:Hfirst.
  cbn in Hv. subst res. rewrite final_triple, trace_triple.
  rewrite (bind_ok _ _ _ _ _ _ Hfirst). rewrite bind_ret_run.
  rewrite !outcome_triple, !trace_triple.
  unfold http_gets. rewrite omap_app. split; reflexivity.
Qed.

(** While the entry is fresh every call is answered from it. *)
Lemma again_covered gaps : forall s e,
  cache_lookup c (cache s) = Some e ->
  (clock s + total gaps < stored_at e + ttl)%N ->
  outcome (again (cache_data c body) gaps s) = Ok (replicate (length gaps) (value e))
  /\ http_gets (trace (again (cache_data c body) gaps s)) = [].
Proof.
  induction gaps as [|d rest IH]; intros s e Hlook Hwindow.
  - split; reflexivity.
  - cbn [total foldr] in Hwindow. fold (total rest) in Hwindow.
    set (s' := set_clock (clock s + d)%N s).
    destruct (hit_run s' e Hlook) as (Hout & Hfinal & Hgets).
    { cbn. lia. }
    destruct (again_run d rest s (value e) Hout) as [Hvalues Hrequests].
    fold s' in Hvalues, Hrequests. rewrite Hfinal in Hvalues, Hrequests.
    destruct (IH s' e Hlook) as [IHout IHgets].
    { cbn. lia. }
    rewrite Hvalues, Hrequests, IHout, Hgets, IHgets. split; reflexivity.
Qed.

Lemma cache_hit_lookup s e :
  cache_hit c s = Some e ->
  cache_lookup c (cache s) = Some e /\ (clock s < stored_at e + ttl)%N.
Proof.
  unfold cache_hit, fresh. destruct (cache_lookup c (cache s)) as [e'|]; [|discriminate].
  destruct (N.ltb_spec (clock s) (stored_at e' + ttl)); [|discriminate].
  intros [= ->]. split; [reflexivity | assumption].
Qed.

(** Within an hour of gaps at most one call goes to the network. *)
Lemma again_one_request gaps : forall s,
  (total gaps < ttl)%N ->
  (exists vs, outcome (again (cache_data c body) gaps s) = Ok vs)
  /\ (length (http_gets (trace (again (cache_data c body) gaps s))) <= 1)%nat.
Proof.
  induction gaps as [|d rest IH]; intros s Hwindow.
  - split; [eexists; reflexivity | cbn; lia].
  - cbn [total foldr] in Hwindow. fold (total rest) in Hwindow.
    set (s' := set_clock (clock s + d)%N s).
    destruct (cache_hit c s') as [e|] eqn:Hhit.
    + destruct (cache_hit_lookup s' e Hhit) as [Hlook Hfresh].
      destruct (hit_run s' e Hlook Hfresh) as (Hout & Hfinal & Hgets).
      destruct (again_run d rest s (value e) Hout) as [Hvalues Hrequests].
      fold s' in Hvalues, Hrequests. rewrite Hfinal in Hvalues, Hrequests.
      destruct (IH s') as [[vs IHout] IHgets]; [lia|].
      rewrite Hvalues, Hrequests, IHout, Hgets. split; [eexists; reflexivity|].
      exact IHgets.
    + destruct (miss_run s' Hhit) as (v & e & Hout & Hgets & Hlook & Hval & Hstored).
      destruct (again_run d rest s v Hout) as [Hvalues Hrequests].
      fold s' in Hvalues, Hrequests.
      destruct (again_covered rest _ e Hlook) as [Hcov Hnone].
      { rewrite Hstored. lia. }
      rewrite Hvalues, Hrequests, Hcov, Hgets, Hnone.
      split; [eexists; reflexivity | cbn; lia].
Qed.

Lemma repeatedly_run gaps s v :
  outcome (cache_data c body s) = Ok v ->
  let others := again (cache_data c body) gaps (final (cache_data c body s)) in
  outcome (repeatedly (cache_data c body) gaps s)
    = match outcome others with Ok vs => Ok (v :: vs) | Raise e => Raise e end
  /\ http_gets (trace (repeatedly (cache_data c body) gaps s))
     = http_gets (trace (cache_data c body s)) ++ http_gets (trace others).
Proof.
  cbv zeta. intros Hv. unfold repeatedly.
  destruct (cache_data c body s) as [[res s1] t1] eqn:Hfirst.
  cbn in Hv. subst res. rewrite final_triple, trace_triple.
  rewrite (bind_ok _ _ _ _ _ _ Hfirst). rewrite bind_ret_run.
  rewrite !outcome_triple, !trace_triple.
  unfold http_gets. rewrite omap_app. split; reflexivity.
Qed.

(** Calls repeated within an hour send at most one request; when the
    first of them is not answered from the cache, it sends that request and
    all of them return its value; and as long as an entry is fresh, all of
    them return the value of the entry and none sends a request. *)
Lemma repeatedly_memoized gaps s :
  let run := repeatedly (cache_data c body) gaps s in
  ((total gaps < ttl)%N -> (length (http_gets (trace run)) <= 1)%nat)
  /\ ((total gaps < ttl)%N -> cache_hit c s = None ->
      exists v, outcome run = Ok (replicate (S (length gaps)) v)
                /\ http_gets (trace run) = [r])
  /\ (forall e, cache_lookup c (cache s) = Some e ->
      (clock s + total gaps < stored_at e + ttl)%N ->
      outcome run = Ok (replicate (S (length gaps)) (value e))
      /\ http_gets (trace run) = []).
Proof.
  cbv zeta. split; [|split].
  - intros Hwindow. destruct (cache_hit c s) as [e|] eqn:Hhit.
    + destruct (cache_hit_lookup s e Hhit) as [Hlook Hfresh].
      destruct (hit_run s e Hlook Hfresh) as (Hout & Hfinal & Hgets).
      destruct (repeatedly_run gaps s (value e) Hout) as [_ Hrequests].
      rewrite Hfinal in Hrequests.
      destruct (again_one_request gaps s Hwindow) as [_ Hone].
      rewrite Hrequests, Hgets. exact Hone.
    + destruct (miss_run s Hhit) as (v & e & Hout & Hgets & Hlook & Hval & Hstored).
      destruct (repeatedly_run gaps s v Hout) as [_ Hrequests].
      destruct (again_covered gaps _ e Hlook) as [_ Hnone].
      { rewrite Hstored. lia. }
      rewrite Hrequests, Hgets, Hnone. cbn. lia.
  - intros Hwindow Hhit.
    destruct (miss_run s Hhit) as (v & e & Hout & Hgets & Hlook & Hval & Hstored).
    destruct (repeatedly_run gaps s v Hout) as [Hvalues Hrequests].
    destruct (again_covered gaps _ e Hlook) as [Hcov Hnone].
    { rewrite Hstored. lia. }
    rewrite Hvalues, Hrequests, Hcov, Hgets, Hnone, Hval.
    exists v. split; reflexivity.
  - intros e Hlook Hwindow.
    destruct (hit_run s e Hlook) as (Hout & Hfinal & Hgets); [lia|].
    destruct (repeatedly_run gaps s (value e) Hout) as [Hvalues Hrequests].
    rewrite Hfinal in Hvalues, Hrequests.
    destruct (again_covered gaps s e Hlook Hwindow) as [Hcov Hnone].
    rewrite Hvalues, Hrequests, Hcov, Hgets, Hnone. split; reflexivity.
Qed.
End Memoized.

(** C8: calls of the search repeated with the same query and limit within
    one hour send at most one request in all; when the first call is not
    answered from the cache it sends the one request and every later call
    returns the value it returned, and calls answered by an entry that stays
    fresh return the value of the entry without any request.  The same
    holds of the detail fetch, per identifier. *)
Theorem memoized_for_an_hour :
  (forall query limit gaps s,
     let run := repeatedly (search_met_artworks query limit) gaps s in
     ((total gaps < ttl)%N -> (length (http_gets (trace run)) <= 1)%nat)
     /\ ((total gaps < ttl)%N -> cache_hit (CSearch query limit) s = None ->
         exists v, outcome run = Ok (replicate (S (length gaps)) v)
                   /\ http_gets (trace run) = [SearchRequest query])
     /\ (forall e, cache_lookup (CSearch query limit) (cache s) = Some e ->
         (clock s + total gaps < stored_at e + ttl)%N ->
         outcome run = Ok (replicate (S (length gaps)) (value e))
         /\ http_gets (trace run) = []))
  /\ (forall object_id gaps s,
     let run := repeatedly (get_artwork_details object_id) gaps s in
     ((total gaps < ttl)%N -> (length (http_gets (trace run)) <= 1)%nat)
     /\ ((total gaps < ttl)%N -> cache_hit (CDetails object_id) s = None ->
         exists v, outcome run = Ok (replicate (S (length gaps)) v)
                   /\ http_gets (trace run) = [ObjectRequest object_id])
     /\ (forall e, cache_lookup (CDetails object_id) (cache s) = Some e ->
         (clock s + total gaps < stored_at e + ttl)%N ->
         outcome run = Ok (replicate (S (length gaps)) (value e))
         /\ http_gets (trace run) = []))
  /\ ttl = (60 * 60 * 1000)%N.
Proof.
  split; [|split; [|reflexivity]].
  - intros query limit gaps s.
    apply (repeatedly_memoized (CSearch query limit) (search_body query limit)
             (SearchRequest query)).
    intros s'. eexists _, _, _. apply search_body_run.
  - intros object_id gaps s.
    apply (repeatedly_memoized (CDetails object_id) (details_body object_id)
             (ObjectRequest object_id)).
    intros s'. eexists _, _, _. apply details_body_run.
Qed.

Lemma memoized_for_an_hour_witness :
  (length (http_gets (trace
     (repeatedly (search_met_artworks "flower" 20) [1000; 600000; 2000000]%N sample_state)))
   <= 1)%nat
  /\ (exists v,
       outcome (repeatedly (search_met_artworks "flower" 20) [1000; 600000; 2000000]%N
                  sample_state) = Ok (replicate 4 v)
       /\ http_gets (trace (repeatedly (search_met_artworks "flower" 20)
                               [1000; 600000; 2000000]%N sample_state))
          = [SearchRequest "flower"])
  /\ (exists v,
       outcome (repeatedly (get_artwork_details (PInt 1)) [1000; 3000000]%N sample_state)
         = Ok (replicate 3 v)
       /\ http_gets (trace (repeatedly (get_artwork_details (PInt 1)) [1000; 3000000]%N
                               sample_state))
          = [ObjectRequest (PInt 1)]).
Proof.
  pose proof memoized_for_an_hour as (Hsearch & Hdetails & _).
  split; [|split].
  - refine (proj1 (Hsearch "flower" 20 [1000; 600000; 2000000]%N sample_state) _).
    vm_compute. reflexivity.
  - refine (proj1 (proj2 (Hsearch "flower" 20 [1000; 600000; 2000000]%N sample_state)) _ _).
    + vm_compute. reflexivity.
    + reflexivity.
  - refine (proj1 (proj2 (Hdetails (PInt 1) [1000; 3000000]%N sample_state)) _ _).
    + vm_compute. reflexivity.
    + reflexivity.
Defined.

(** * Further properties of the code *)

(** ** The search client beyond the two status paths *)

(** X1: when [requests.get] raises, or the body of a 200 response is no
    JSON, the search returns the empty list, shows one error notice that
    carries the exception, and has sent its one request. *)
Theorem search_exception_paths query limit s :
  cache_hit (CSearch query limit) s = None ->
  let rep := network s (requests_made s) (SearchRequest query) in
  let run := search_met_artworks query limit s in
  (forall e, answer rep = Raise e ->
     outcome run = Ok (PList [])
     /\ errors_of (trace run) = [[FText "搜索时发生错误: "; FExn e]]
     /\ http_gets (trace run) = [SearchRequest query])
  /\ (forall resp, answer rep = Ok resp -> status_code resp = 200 -> json resp = None ->
     outcome run = Ok (PList [])
     /\ errors_of (trace run) = [[FText "搜索时发生错误: "; FExn JSONDecodeError]]
     /\ http_gets (trace run) = [SearchRequest query]).
Proof.
  intros Hmiss. cbv zeta.
  rewrite (search_miss _ _ _ Hmiss). unfold outcome, trace, search_eval. cbn.
  split.
  - intros e Hans. rewrite Hans. cbn. repeat split.
  - intros resp Hans Hstatus Hjson. rewrite Hans, Hstatus, Hjson. cbn. repeat split.
Qed.

Lemma search_exception_paths_witness :
  (outcome (search_met_artworks "offline" 20 edge_state) = Ok (PList [])
   /\ errors_of (trace (search_met_artworks "offline" 20 edge_state))
      = [[FText "搜索时发生错误: "; FExn (RequestException "timed out")]]
   /\ http_gets (trace (search_met_artworks "offline" 20 edge_state))
      = [SearchRequest "offline"])
  /\ (outcome (search_met_artworks "html" 20 edge_state) = Ok (PList [])
   /\ errors_of (trace (search_met_artworks "html" 20 edge_state))
      = [[FText "搜索时发生错误: "; FExn JSONDecodeError]]
   /\ http_gets (trace (search_met_artworks "html" 20 edge_state))
      = [SearchRequest "html"]).
Proof.
  split.
  - refine (proj1 (search_exception_paths "offline" 20 edge_state _)
              (RequestException "timed out") _); reflexivity.
  - refine (proj2 (search_exception_paths "html" 20 edge_state _)
              (Response 200 None) _ _ _); reflexivity.
Defined.

(** X2: a 200 response whose JSON is no object, or whose [objectIDs] is
    present but neither a list nor a string ([null], as the API sends for
    no result, a number, a boolean, an object), does not get past the
    [except]: the search returns the empty list and shows one error notice,
    with an AttributeError in the first case and a TypeError in the second. *)
Theorem search_malformed_body query limit s el data :
  cache_hit (CSearch query limit) s = None ->
  network s (requests_made s) (SearchRequest query)
    = Reply el (Ok (Response 200 (Some data))) ->
  let run := search_met_artworks query limit s in
  (is_dict data = false ->
     outcome run = Ok (PList [])
     /\ errors_of (trace run) = [[FText "搜索时发生错误: "; FExn AttributeError]])
  /\ (forall fields v,
        data = PDict fields -> dict_lookup "objectIDs" fields = Some v ->
        sliceable v = false ->
        outcome run = Ok (PList [])
        /\ errors_of (trace run) = [[FText "搜索时发生错误: "; FExn TypeError]]).
Proof.
  intros Hmiss Hnet. cbv zeta.
  rewrite (search_miss _ _ _ Hmiss). unfold outcome, trace, search_eval. cbn.
  rewrite Hnet. cbn. split.
  - intros Hdict. destruct data; try discriminate; cbn; split; reflexivity.
  - intros fields v -> Hlook Hslice. cbn. rewrite Hlook.
    destruct v; try discriminate; cbn; split; reflexivity.
Qed.

Lemma search_malformed_body_witness :
  (outcome (search_met_artworks "array" 20 edge_state) = Ok (PList [])
   /\ errors_of (trace (search_met_artworks "array" 20 edge_state))
      = [[FText "搜索时发生错误: "; FExn AttributeError]])
  /\ (outcome (search_met_artworks "null" 20 edge_state) = Ok (PList [])
   /\ errors_of (trace (search_met_artworks "null" 20 edge_state))
      = [[FText "搜索时发生错误: "; FExn TypeError]]).
Proof.
  split.
  - refine (proj1 (search_malformed_body "array" 20 edge_state 40
                     (PList [PInt 1; PInt 2]) _ _) _); reflexivity.
  - refine (proj2 (search_malformed_body "null" 20 edge_state 40
                     (PDict [("total", PInt 0); ("objectIDs", PNone)]) _ _)
              [("total", PInt 0); ("objectIDs", PNone)] PNone _ _ _); reflexivity.
Defined.

Lemma search_eval_sliceable limit rep : sliceable (search_eval limit rep).1 = true.
Proof.
  unfold search_eval. destruct (answer rep) as [resp|e]; [|reflexivity].
  destruct (Z.eqb (status_code resp) 200); [|reflexivity].
  destruct (json resp) as [data|]; [|reflexivity].
  destruct (py_get data "objectIDs" (PList [])) as [ids|e]; [|reflexivity].
  destruct ids; reflexivity.
Qed.

(** X3: no exception leaves the two API functions, whatever the network and
    the cache hold; and a search that went to the network returns a list or
    a string, so that the driver can take its length and slice it. *)
Theorem api_functions_never_raise :
  (forall query limit s, exists v, outcome (search_met_artworks query limit s) = Ok v)
  /\ (forall object_id s, exists v, outcome (get_artwork_details object_id s) = Ok v)
  /\ (forall query limit s,
        match cache_hit (CSearch query limit) s with
        | Some _ => True
        | None => exists v, outcome (search_met_artworks query limit s) = Ok v
                            /\ sliceable v = true
        end).
Proof.
  split; [|split].
  - intros query limit s.
    destruct (search_shape query limit s) as (v & s1 & pre & H & _).
    exists v. rewrite H. reflexivity.
  - intros object_id s.
    destruct (details_shape object_id s) as (v & s1 & pre & H & _).
    exists v. rewrite H. reflexivity.
  - intros query limit s.
    destruct (cache_hit (CSearch query limit) s) eqn:Hmiss; [exact I|].
    rewrite (search_miss _ _ _ Hmiss). eexists. split; [reflexivity|].
    apply search_eval_sliceable.
Qed.

(** ** The detail fetcher on success *)

(** X4: on a 200 response the detail fetch returns the parsed JSON as it
    is, whatever it is, shows no notice, and stores the value under the
    identifier. *)
Theorem details_success object_id s el v :
  cache_hit (CDetails object_id) s = None ->
  network s (requests_made s) (ObjectRequest object_id)
    = Reply el (Ok (Response 200 (Some v))) ->
  let run := get_artwork_details object_id s in
  outcome run = Ok v
  /\ errors_of (trace run) = []
  /\ http_gets (trace run) = [ObjectRequest object_id]
  /\ (value <$> cache_lookup (CDetails object_id) (cache (final run))) = Some v.
Proof.
  intros Hmiss Hnet. cbv zeta.
  rewrite (details_miss _ _ Hmiss). unfold outcome, trace, final, details_eval. cbn.
  rewrite Hnet. cbn.
  destruct (decide (CDetails object_id = CDetails object_id)); [|contradiction].
  repeat split.
Qed.

Lemma details_success_witness :
  let run := get_artwork_details (PInt 9) edge_state in
  outcome run = Ok (PList [PInt 9])
  /\ errors_of (trace run) = []
  /\ http_gets (trace run) = [ObjectRequest (PInt 9)]
  /\ (value <$> cache_lookup (CDetails (PInt 9)) (cache (final run)))
     = Some (PList [PInt 9]).
Proof.
  refine (details_success (PInt 9) edge_state 20 (PList [PInt 9]) _ _); reflexivity.
Defined.

(** X5: whatever the limit, the identifiers a search returns from a 200
    response are a prefix of the identifiers of the response; a negative
    limit leaves out the last [-limit] of them. *)
Theorem search_returns_prefix query limit s el fields ids :
  cache_hit (CSearch query limit) s = None ->
  network s (requests_made s) (SearchRequest query)
    = Reply el (Ok (Response 200 (Some (PDict fields)))) ->
  dict_lookup "objectIDs" fields = Some (PList ids) ->
  let run := search_met_artworks query limit s in
  (exists k, outcome run = Ok (PList (take k ids)))
  /\ errors_of (trace run) = []
  /\ (limit < 0 ->
      outcome run = Ok (PList (take (length ids - Z.to_nat (- limit)) ids))).
Proof.
  intros Hmiss Hnet Hids. cbv zeta.
  rewrite (search_miss _ _ _ Hmiss). unfold outcome, trace, search_eval. cbn.
  rewrite Hnet. cbn. rewrite Hids. cbn. unfold slice_to.
  split; [|split].
  - destruct (Z.leb 0 limit); eexists; reflexivity.
  - reflexivity.
  - intros Hneg. apply Z.leb_gt in Hneg. rewrite Hneg. reflexivity.
Qed.

Lemma search_returns_prefix_witness :
  let run := search_met_artworks "flower" (-2) sample_state in
  (exists k, outcome run = Ok (PList (take k [PInt 1; PInt 2; PInt 3])))
  /\ errors_of (trace run) = []
  /\ (-2 < 0 -> outcome run = Ok (PList [PInt 1])).
Proof.
  refine (search_returns_prefix "flower" (-2) sample_state 50
            [("total", PInt 3); ("objectIDs", PList [PInt 1; PInt 2; PInt 3])]
            [PInt 1; PInt 2; PInt 3] _ _ _); reflexivity.
Defined.

(** ** Memoization of failures, and expiry *)

Section MemoizedValues.
Variable c : call.
Variable body : M pyval.
Variable r : request.
Hypothesis body_run :
  forall s, exists v s1 l, body s = (Ok v, s1, EHttpGet r :: map EError l).

Lemma repeatedly_first_value gaps s v :
  (total gaps < ttl)%N ->
  cache_hit c s = None ->
  outcome (cache_data c body s) = Ok v ->
  outcome (repeatedly (cache_data c body) gaps s) = Ok (replicate (S (length gaps)) v)
  /\ http_gets (trace (repeatedly (cache_data c body) gaps s)) = [r].
Proof.
  intros Hwindow Hmiss Hv.
  destruct (repeatedly_memoized c body r body_run gaps s) as (_ & Hsame & _).
  destruct (Hsame Hwindow Hmiss) as (v' & Hout & Hgets).
  split; [|exact Hgets].
  destruct (repeatedly_run c body gaps s v Hv) as [Hvalues _].
  rewrite Hout in Hvalues.
  destruct (outcome (again (cache_data c body) gaps (final (cache_data c body s))))
    as [vs|e]; [|discriminate].
  rewrite replicate_S in Hvalues. injection Hvalues as Hhead _.
  rewrite Hout, Hhead. reflexivity.
Qed.

Lemma stale_refetch s d :
  cache_hit c s = None ->
  (ttl <= d)%N ->
  http_gets (trace (repeatedly (cache_data c body) [d] s)) = [r; r].
Proof.
  intros Hmiss Hlate.
  destruct (miss_run c body r body_run s Hmiss)
    as (v & e & Hout & Hgets & Hlook & _ & Hstored).
  destruct (repeatedly_run c body [d] s v Hout) as [_ Hrequests].
  rewrite Hrequests, Hgets.
  set (s1 := final (cache_data c body s)) in *.
  assert (Hmiss' : cache_hit c (set_clock (clock s1 + d)%N s1) = None).
  { unfold cache_hit, fresh. cbn. rewrite Hlook, Hstored.
    destruct (N.ltb_spec (clock s1 + d) (clock s1 + ttl)); [lia | reflexivity]. }
  destruct (miss_run c body r body_run _ Hmiss')
    as (v2 & e2 & Hout2 & Hgets2 & _).
  destruct (again_run c body d [] s1 v2 Hout2) as [_ Hrequests2].
  rewrite Hrequests2, Hgets2. reflexivity.
Qed.
End MemoizedValues.

(** X6: a failure is memoized like a result.  After a search that went to
    the network and was answered with a status other than 200, the same
    search repeated within the hour returns the empty list every time and
    sends no further request, whatever the network would answer by then;
    and likewise a detail fetch that failed keeps returning [None]. *)
Theorem failures_are_memoized :
  (forall query limit gaps s el resp,
     (total gaps < ttl)%N ->
     cache_hit (CSearch query limit) s = None ->
     network s (requests_made s) (SearchRequest query) = Reply el (Ok resp) ->
     status_code resp <> 200 ->
     let run := repeatedly (search_met_artworks query limit) gaps s in
     outcome run = Ok (replicate (S (length gaps)) (PList []))
     /\ http_gets (trace run) = [SearchRequest query])
  /\ (forall object_id gaps s el resp,
     (total gaps < ttl)%N ->
     cache_hit (CDetails object_id) s = None ->
     network s (requests_made s) (ObjectRequest object_id) = Reply el (Ok resp) ->
     status_code resp <> 200 ->
     let run := repeatedly (get_artwork_details object_id) gaps s in
     outcome run = Ok (replicate (S (length gaps)) PNone)
     /\ http_gets (trace run) = [ObjectRequest object_id]).
Proof.
  split.
  - intros query limit gaps s el resp Hwindow Hmiss Hnet Hstatus.
    apply (repeatedly_first_value (CSearch query limit) (search_body query limit)
             (SearchRequest query)); try assumption.
    + intros s'. eexists _, _, _. apply search_body_run.
    + fold (search_met_artworks query limit). rewrite (search_miss _ _ _ Hmiss).
      unfold outcome, search_eval. cbn. rewrite Hnet. cbn.
      apply Z.eqb_neq in Hstatus. rewrite Hstatus. reflexivity.
  - intros object_id gaps s el resp Hwindow Hmiss Hnet Hstatus.
    apply (repeatedly_first_value (CDetails object_id) (details_body object_id)
             (ObjectRequest object_id)); try assumption.
    + intros s'. eexists _, _, _. apply details_body_run.
    + fold (get_artwork_details object_id). rewrite (details_miss _ _ Hmiss).
      unfold outcome, details_eval. cbn. rewrite Hnet. cbn.
      apply Z.eqb_neq in Hstatus. rewrite Hstatus. reflexivity.
Qed.

Lemma failures_are_memoized_witness :
  (outcome (repeatedly (search_met_artworks "flaky" 20) [5000; 60000]%N edge_state)
     = Ok [PList []; PList []; PList []]
   /\ http_gets (trace (repeatedly (search_met_artworks "flaky" 20) [5000; 60000]%N
                          edge_state))
      = [SearchRequest "flaky"])
  /\ (outcome (repeatedly (get_artwork_details (PInt 4)) [5000]%N edge_state)
     = Ok [PNone; PNone]
   /\ http_gets (trace (repeatedly (get_artwork_details (PInt 4)) [5000]%N edge_state))
      = [ObjectRequest (PInt 4)]).
Proof.
  pose proof failures_are_memoized as [Hsearch Hdetails].
  split.
  - refine (Hsearch "flaky" 20 [5000; 60000]%N edge_state 40%N (Response 503 None) _ _ _ _);
      first [reflexivity | discriminate].
  - refine (Hdetails (PInt 4) [5000]%N edge_state 20%N (Response 404 None) _ _ _ _);
      first [reflexivity | discriminate].
Defined.

(** X7: an entry is used for one hour and no longer.  When a call that went
    to the network is repeated an hour or more after its value was stored,
    the function runs again and sends a second request. *)
Theorem entries_expire :
  (forall query limit d s,
     cache_hit (CSearch query limit) s = None ->
     (ttl <= d)%N ->
     http_gets (trace (repeatedly (search_met_artworks query limit) [d] s))
       = [SearchRequest query; SearchRequest query])
  /\ (forall object_id d s,
     cache_hit (CDetails object_id) s = None ->
     (ttl <= d)%N ->
     http_gets (trace (repeatedly (get_artwork_details object_id) [d] s))
       = [ObjectRequest object_id; ObjectRequest object_id]).
Proof.
  split.
  - intros query limit d s Hmiss Hlate.
    apply (stale_refetch (CSearch query limit) (search_body query limit)); try assumption.
    intros s'. eexists _, _, _. apply search_body_run.
  - intros object_id d s Hmiss Hlate.
    apply (stale_refetch (CDetails object_id) (details_body object_id)); try assumption.
    intros s'. eexists _, _, _. apply details_body_run.
Qed.

Lemma entries_expire_witness :
  http_gets (trace (repeatedly (search_met_artworks "flaky" 20) [3600000]%N edge_state))
    = [SearchRequest "flaky"; SearchRequest "flaky"]
  /\ outcome (repeatedly (search_met_artworks "flaky" 20) [3600000]%N edge_state)
     = Ok [PList []; PList [PInt 1; PInt 2]]
  /\ http_gets (trace (repeatedly (get_artwork_details (PInt 1)) [4000000]%N edge_state))
    = [ObjectRequest (PInt 1); ObjectRequest (PInt 1)].
Proof.
  pose proof entries_expire as [Hsearch Hdetails].
  split; [|split].
  - refine (Hsearch "flaky" 20 3600000%N edge_state _ _); [reflexivity|].
    vm_compute. discriminate.
  - vm_compute. reflexivity.
  - refine (Hdetails (PInt 1) 4000000%N edge_state _ _); [reflexivity|].
    vm_compute. discriminate.
Defined.

(** ** A fetched value that is no record *)

Lemma fetch_loop_crash ids : forall i acc s,
  let run := for_enumerate fetch_step i ids acc s in
  match outcome run with
  | Ok _ => Forall (fun v => crashing v = false) (fetched (trace run))
  | Raise e =>
      e = AttributeError
      /\ exists vs v, fetched (trace run) = vs ++ [v]
                      /\ crashing v = true
                      /\ Forall (fun v => crashing v = false) vs
  end.
Proof.
  induction ids as [|object_id rest IH]; intros i acc s; cbv zeta.
  - cbn. constructor.
  - cbn [for_enumerate].
    destruct (details_shape object_id s) as (v & s1 & pre & Hget & Hpre).
    pose proof (fetch_step_run i object_id acc s v s1 _ Hget) as Hstep.
    destruct (crashing v) eqn:Hcrash.
    + rewrite (bind_raise _ _ _ _ _ _ Hstep).
      rewrite !outcome_triple, !trace_triple.
      split; [reflexivity|]. exists [], v.
      unfold fetched. rewrite (omap_crash _ i object_id v pre quiet_fetched Hpre).
      repeat split; [exact Hcrash | constructor].
    + rewrite (bind_ok _ _ _ _ _ _ Hstep).
      rewrite !outcome_triple, !trace_triple.
      specialize (IH (i + 1) (if has_image v then acc ++ [v] else acc)
                     (set_clock (clock s1 + 100)%N s1)).
      cbv zeta in IH. unfold fetched in *.
      rewrite (omap_turn _ i object_id v pre _ quiet_fetched Hpre).
      cbn [omap list_omap loading app].
      destruct (outcome (for_enumerate fetch_step (i + 1) rest _ _)) as [artworks|e].
      * constructor; assumption.
      * destruct IH as (He & vs & v' & Hvs & Hv' & Hall).
        split; [exact He|]. exists (v :: vs), v'. rewrite Hvs.
        repeat split; [exact Hv' | constructor; assumption].
Qed.

(** X8: when a detail fetch returns a value that is true in a condition
    but no dictionary (a JSON list, string or number), [artwork.get] raises
    an AttributeError that nothing catches: the driver stops there.  That
    fetch is the last one, nothing is rendered, and the progress bar and the
    status line are not cleared. *)
Theorem non_record_stops_the_driver search_term s ids :
  outcome (search_met_artworks search_term 20 s) = Ok (PList ids) ->
  ids <> [] ->
  let run := display_artworks search_term s in
  Exists (fun v => crashing v = true) (fetched (trace run)) ->
  outcome run = Raise AttributeError
  /\ (exists v, last (fetched (trace run)) = Some v /\ crashing v = true)
  /\ Forall (fun e => render_event e = false) (trace run)
  /\ ~ In EProgressEmpty (trace run)
  /\ ~ In EStatusEmpty (trace run).
Proof.
  intros Hout Hids run Hex. subst run.
  destruct (search_touches_no_details search_term 20 s)
    as (_ & _ & Hfetched & _ & Hsearch_render).
  pose proof (emits_search_events search_term 20 s) as Hsearch_events.
  destruct (search_met_artworks search_term 20 s) as [[r s1] t1] eqn:Hsearch.
  cbn in Hout. subst r. rewrite !trace_triple in *.
  rewrite (display_run _ _ _ _ _ Hsearch) in *.
  rewrite (show_results_run ids s1 Hids) in *.
  pose proof (fetch_loop_crash (take 6 ids) 0 [] s1) as Hcrash.
  pose proof (returns_fetch_loop (take 6 ids) 0 s1) as Himages.
  pose proof (emits_fetch_loop (take 6 ids) 0 [] s1) as Hloop.
  cbv zeta in Hcrash.
  destruct (for_enumerate fetch_step 0 (take 6 ids) [] s1) as [[[artworks|e] s2] t2].
  - exfalso. rewrite !outcome_triple, !final_triple, !trace_triple in *.
    specialize (Himages artworks eq_refl).
    destruct (show_artworks_quiet artworks s2 Himages) as [Hquiet _].
    unfold fetched in *. rewrite !omap_app, Hfetched, Hquiet in Hex. cbn in Hex.
    rewrite app_nil_r in Hex.
    apply Exists_exists in Hex as (v & Hv & Hc).
    rewrite Forall_forall in Hcrash. rewrite (Hcrash v Hv) in Hc. discriminate.
  - rewrite !outcome_triple, !final_triple, !trace_triple in *.
    destruct Hcrash as (-> & vs & v & Hvs & Hv & _).
    assert (Hsame : fetched (search_heading search_term ++ t1 ++ found_heading ids ++ t2)
                    = vs ++ [v]).
    { unfold fetched in *. rewrite !omap_app, Hfetched, Hvs. reflexivity. }
    assert (Hevents : Forall (fun e => search_event e = true \/ loop_event e = true
                                       \/ In e (search_heading search_term)
                                       \/ In e (found_heading ids))
                        (search_heading search_term ++ t1 ++ found_heading ids ++ t2)).
    { repeat (apply Forall_app; split).
      - apply Forall_forall. intros e He. right. right. left.
        apply list_elem_of_In. exact He.
      - eapply Forall_impl; [exact Hsearch_events|]. intros e He. left. exact He.
      - apply Forall_forall. intros e He. right. right. right.
        apply list_elem_of_In. exact He.
      - eapply Forall_impl; [exact Hloop|]. intros e He. right. left. exact He. }
    split; [reflexivity|]. split; [|split; [|split]].
    + exists v. rewrite Hsame. split; [apply last_snoc | exact Hv].
    + eapply Forall_impl; [exact Hevents|].
      intros e [He|[He|[He|He]]].
      * destruct e as [[]|[]| | | | | | | | | | | | | | | | | | | |];
          cbn in He; try discriminate; reflexivity.
      * destruct e as [[]|[]| | | | | | | | | | | | | | | | | | | |];
          cbn in He; try discriminate; reflexivity.
      * cbn in He. destruct He as [<-|[<-|[]]]; reflexivity.
      * cbn in He. destruct He as [<-|[<-|[<-|[]]]]; reflexivity.
    + intros Hin. apply list_elem_of_In in Hin.
      rewrite Forall_forall in Hevents.
      destruct (Hevents _ Hin) as [He|[He|[He|He]]]; try discriminate He.
      * cbn in He. destruct He as [He|[He|[]]]; discriminate He.
      * cbn in He. destruct He as [He|[He|[He|[]]]]; discriminate He.
    + intros Hin. apply list_elem_of_In in Hin.
      rewrite Forall_forall in Hevents.
      destruct (Hevents _ Hin) as [He|[He|[He|He]]]; try discriminate He.
      * cbn in He. destruct He as [He|[He|[]]]; discriminate He.
      * cbn in He. destruct He as [He|[He|[He|[]]]]; discriminate He.
Qed.

Lemma non_record_stops_the_driver_witness :
  let run := display_artworks "mixed" edge_state in
  outcome run = Raise AttributeError
  /\ (exists v, last (fetched (trace run)) = Some v /\ crashing v = true)
  /\ Forall (fun e => render_event e = false) (trace run)
  /\ ~ In EProgressEmpty (trace run)
  /\ ~ In EStatusEmpty (trace run).
Proof.
  refine (non_record_stops_the_driver "mixed" edge_state [PInt 1; PInt 9; PInt 2] _ _ _).
  - reflexivity.
  - discriminate.
  - vm_compute. right. left. reflexivity.
Defined.

(** ** How many requests a run sends *)

Lemma sends_weaken {A : Type} (m : M A) a b : (a <= b)%nat -> sends a m -> sends b m.
Proof. intros Hab Hm s. specialize (Hm s). lia. Qed.

Lemma sends_ret {A : Type} (a : A) : sends 0 (ret a).
Proof. intros s. cbn. lia. Qed.

Lemma sends_emit e : (forall r, e <> EHttpGet r) -> sends 0 (emit e).
Proof. intros He s. cbn. destruct e; cbn; try lia. destruct (He r eq_refl). Qed.

Lemma sends_sleep ms : sends 0 (sleep ms).
Proof. intros s. cbn. lia. Qed.

Lemma sends_bind {A B : Type} (m : M A) (k : A -> M B) a b :
  sends a m -> (forall x, sends b (k x)) -> sends (a + b) (bind m k).
Proof.
  intros Hm Hk s. specialize (Hm s). unfold bind.
  destruct (m s) as [[[x|e] s1] t1]; cbn in *; [|lia].
  specialize (Hk x s1). destruct (k x s1) as [[r s2] t2]. cbn in *.
  unfold http_gets in *. rewrite omap_app, length_app. lia.
Qed.

Lemma sends_lift_bind {A B : Type} (r : result A) (k : A -> M B) n :
  (forall x, r = Ok x -> sends n (k x)) -> sends n (bind (lift r) k).
Proof.
  intros Hk s. unfold bind, lift. destruct r as [x|e]; [|cbn; lia].
  specialize (Hk x eq_refl s). destruct (k x s) as [[r s2] t2]. exact Hk.
Qed.

Lemma sends_for_enumerate {A B : Type} (body : Z -> A -> B -> M B) b xs :
  (forall i x acc, sends b (body i x acc)) ->
  forall i acc, sends (length xs * b) (for_enumerate body i xs acc).
Proof.
  intros Hbody. induction xs as [|x rest IH]; intros i acc; cbn [for_enumerate length].
  - apply sends_ret.
  - change (S (length rest) * b)%nat with (b + length rest * b)%nat.
    apply sends_bind; [apply Hbody | intros acc'; apply IH].
Qed.

Lemma sends_cache_data c body r :
  (forall s, exists v s1 l, body s = (Ok v, s1, EHttpGet r :: map EError l)) ->
  sends 1 (cache_data c body).
Proof.
  intros Hbody s. destruct (cache_hit c s) as [e|] eqn:Hhit.
  - destruct (cache_hit_lookup c s e Hhit) as [Hlook Hfresh].
    destruct (hit_run c body s e Hlook Hfresh) as (_ & _ & ->). cbn. lia.
  - destruct (miss_run c body r Hbody s Hhit) as (v & e & _ & -> & _). cbn. lia.
Qed.

Lemma sends_search query limit : sends 1 (search_met_artworks query limit).
Proof.
  eapply sends_cache_data. intros s. eexists _, _, _. apply search_body_run.
Qed.

Lemma sends_details object_id : sends 1 (get_artwork_details object_id).
Proof.
  eapply sends_cache_data. intros s. eexists _, _, _. apply details_body_run.
Qed.

Lemma sends_st_image src caption : sends 0 (st_image src caption).
Proof. intros s. unfold st_image. destruct (image_error s src caption); cbn; lia. Qed.

Ltac sends0 :=
  repeat first
    [ apply sends_ret | apply sends_sleep | apply sends_st_image
    | apply sends_emit; intros; discriminate
    | apply sends_lift_bind; intros ? _
    | apply (sends_bind _ _ 0 0); [|intros ?]
    | match goal with
      | |- sends _ (if ?b then _ else _) => destruct b
      end ].

Lemma sends_fetch_step i object_id acc : sends 1 (fetch_step i object_id acc).
Proof.
  unfold fetch_step.
  apply (sends_bind _ _ 0 1); [sends0 | intros _].
  apply (sends_bind _ _ 1 0); [apply sends_details | intros artwork].
  sends0.
Qed.

Lemma sends_render_step n i artwork u : sends 0 (render_step n i artwork u).
Proof. unfold render_step, write_if_present, image_not_available. sends0. Qed.

Lemma slice_iter_length v first6 ids :
  py_slice_to v 6 = Ok first6 -> py_iter first6 = Ok ids -> (length ids <= 6)%nat.
Proof.
  destruct v; cbn; try discriminate; intros [= <-]; cbn; intros [= <-].
  - unfold slice_to, py_characters. cbn [Z.leb Z.to_nat Pos.to_nat Pos.iter_op Nat.add].
    change (Pos.to_nat 6) with 6%nat.
    rewrite length_map, list_ascii_of_string_of_list_ascii, characters_take, length_take.
    lia.
  - unfold slice_to. cbn. rewrite length_take. lia.
Qed.

Lemma sends_show_results artwork_ids : sends 6 (show_results artwork_ids).
Proof.
  unfold show_results.
  destruct (negb (py_truthy artwork_ids)).
  { eapply sends_weaken; [|apply sends_emit; intros; discriminate]. lia. }
  apply sends_lift_bind. intros found _.
  apply (sends_bind _ _ 0 6); [sends0 | intros _].
  apply (sends_bind _ _ 0 6); [sends0 | intros _].
  apply (sends_bind _ _ 0 6); [sends0 | intros _].
  apply sends_lift_bind. intros first6 Hslice.
  apply sends_lift_bind. intros ids Hiter.
  pose proof (slice_iter_length _ _ _ Hslice Hiter) as Hlen.
  apply (sends_bind _ _ 6 0).
  - eapply sends_weaken; [|apply (sends_for_enumerate fetch_step 1)].
    + lia.
    + intros. apply sends_fetch_step.
  - intros artworks.
    apply (sends_bind _ _ 0 0); [sends0 | intros _].
    apply (sends_bind _ _ 0 0); [sends0 | intros _].
    destruct artworks as [|a rest]; [sends0|].
    eapply sends_weaken; [|apply (sends_for_enumerate _ 0)].
    + lia.
    + intros. apply sends_render_step.
Qed.

Lemma sends_display_artworks search_term : sends 7 (display_artworks search_term).
Proof.
  unfold display_artworks.
  apply (sends_bind _ _ 0 7); [sends0 | intros _].
  apply (sends_bind _ _ 0 7); [sends0 | intros _].
  apply (sends_bind _ _ 1 6); [apply sends_search | intros artwork_ids].
  apply sends_show_results.
Qed.

(** X9: one run of the driver sends at most seven requests, one search and
    six detail fetches, whatever the search term, the network and the cache;
    and so does one run of the whole script. *)
Theorem at_most_seven_requests :
  (forall search_term s,
     (length (http_gets (trace (display_artworks search_term s))) <= 7)%nat)
  /\ (forall w s, (length (http_gets (trace (main w s))) <= 7)%nat).
Proof.
  split; [exact sends_display_artworks|].
  intros w s. rewrite main_run. cbv zeta.
  assert (Hpage : forall t s', (length (http_gets (trace (page t s'))) <= 7)%nat).
  { intros t s'. unfold page.
    destruct (py_truthy t); [apply sends_display_artworks | cbn; lia]. }
  specialize (Hpage (chosen_term w (presets w (session_state s)))
                (set_session_state (delete "search_term" (presets w (session_state s))) s)).
  destruct (outcome (page _ _)); rewrite trace_triple; unfold http_gets in *;
    rewrite !omap_app, !length_app; cbn; lia.
Qed.

(** ** The time a run takes, and the progress bar *)

Lemma details_clock object_id s :
  (clock s <= clock (final (get_artwork_details object_id s)))%N.
Proof.
  destruct (cache_hit (CDetails object_id) s) as [e|] eqn:Hhit.
  - unfold get_artwork_details. rewrite (cache_data_hit _ _ _ _ Hhit).
    rewrite final_triple. lia.
  - rewrite (details_miss _ _ Hhit). rewrite final_triple. cbn. lia.
Qed.

Lemma search_clock query limit s :
  (clock s <= clock (final (search_met_artworks query limit s)))%N.
Proof.
  destruct (cache_hit (CSearch query limit) s) as [e|] eqn:Hhit.
  - unfold search_met_artworks. rewrite (cache_data_hit _ _ _ _ Hhit).
    rewrite final_triple. lia.
  - rewrite (search_miss _ _ _ Hhit). rewrite final_triple. cbn. lia.
Qed.

Lemma fetch_loop_clock ids : forall i acc s artworks,
  outcome (for_enumerate fetch_step i ids acc s) = Ok artworks ->
  (clock s + 100 * N.of_nat (length ids)
   <= clock (final (for_enumerate fetch_step i ids acc s)))%N.
Proof.
  induction ids as [|object_id rest IH]; intros i acc s artworks.
  - cbn. lia.
  - cbn [for_enumerate length].
    pose proof (details_clock object_id s) as Hclock.
    destruct (get_artwork_details object_id s) as [[[v|e] s1] t1] eqn:Hget.
    + pose proof (fetch_step_run i object_id acc s v s1 t1 Hget) as Hstep.
      rewrite final_triple in Hclock.
      destruct (crashing v).
      * rewrite (bind_raise _ _ _ _ _ _ Hstep). rewrite outcome_triple. discriminate.
      * rewrite (bind_ok _ _ _ _ _ _ Hstep). rewrite outcome_triple, final_triple.
        intros Hout. specialize (IH _ _ _ _ Hout). cbn [clock set_clock] in IH. lia.
    + destruct (details_shape object_id s) as (v & s1' & pre & Hget' & _).
      rewrite Hget in Hget'. discriminate.
Qed.

(** X10: the pauses add up.  A run of the driver on [n] identifiers, [n]
    at least 1, takes at least [100 ms] for each of the [min n 6] fetches,
    also when every answer comes from the cache. *)
Theorem pauses_add_up search_term s ids :
  outcome (search_met_artworks search_term 20 s) = Ok (PList ids) ->
  ids <> [] ->
  let run := display_artworks search_term s in
  Forall record_or_absent (fetched (trace run)) ->
  (clock s + 100 * N.of_nat (Nat.min (length ids) 6) <= clock (final run))%N.
Proof.
  intros Hout Hids run Hall. subst run.
  destruct (display_found search_term s ids Hout Hids Hall)
    as (artworks & Hloop & _ & _ & _ & Hrun).
  rewrite Hrun, final_triple.
  assert (Himages : Forall (fun a => has_image a = true) artworks).
  { eapply returns_fetch_loop. exact Hloop. }
  rewrite show_artworks_unchanged.
  pose proof (fetch_loop_clock _ _ _ _ _ Hloop) as Hclock.
  pose proof (search_clock search_term 20 s) as Hsearch.
  rewrite length_take in Hclock.
  replace (Nat.min (length ids) 6) with (Nat.min 6 (length ids)) by lia.
  lia.
Qed.

Lemma pauses_add_up_witness :
  (0 + 100 * N.of_nat (Nat.min 8 6)
   <= clock (final (display_artworks "garden" sample_state)))%N.
Proof.
  refine (pauses_add_up "garden" sample_state
            [PInt 1; PInt 2; PInt 3; PInt 4; PInt 5; PInt 6; PInt 7; PInt 8] _ _ _).
  - reflexivity.
  - discriminate.
  - vm_compute. repeat constructor.
Defined.

Lemma display_pace search_term s ids :
  outcome (search_met_artworks search_term 20 s) = Ok (PList ids) ->
  ids <> [] ->
  Forall record_or_absent (fetched (trace (display_artworks search_term s))) ->
  omap pace_of (trace (display_artworks search_term s))
    = Progress 0 1 :: schedule 0 (take 6 ids).
Proof.
  intros Hout Hids Hall.
  destruct (display_found search_term s ids Hout Hids Hall)
    as (artworks & Hloop & _ & _ & Hsched & Hrun).
  rewrite Hrun, trace_triple.
  destruct (search_touches_no_details search_term 20 s) as (_ & _ & _ & Hsearch & _).
  assert (Himages : Forall (fun a => has_image a = true) artworks).
  { eapply returns_fetch_loop. exact Hloop. }
  destruct (show_artworks_quiet artworks
              (final (for_enumerate fetch_step 0 (take 6 ids) []
                        (final (search_met_artworks search_term 20 s)))) Himages)
    as [_ Hquiet].
  rewrite !omap_app, Hsearch, Hsched, Hquiet. cbn. rewrite app_nil_r. reflexivity.
Qed.

Lemma schedule_progress ids : forall i a b,
  Progress a b ∈ schedule i ids <-> b = 6 /\ i < a <= i + Z.of_nat (length ids).
Proof.
  induction ids as [|x rest IH]; intros i a b.
  - cbn. split; [intros H; inversion H | lia].
  - cbn [schedule length]. rewrite !elem_of_cons, IH. split.
    + intros [H|[H|[H|H]]]; try discriminate H; [injection H as -> ->|]; lia.
    + intros [-> Hrange].
      destruct (decide (a = i + 1)) as [->|Hne]; [right; left; reflexivity|].
      right. right. right. lia.
Qed.

(** X11: the progress bar is out of six, whatever the number of results:
    it reaches 6/6 exactly when the search returned six identifiers or more,
    and with fewer it is cleared before it is full. *)
Theorem progress_full_iff_six search_term s ids :
  outcome (search_met_artworks search_term 20 s) = Ok (PList ids) ->
  ids <> [] ->
  let run := display_artworks search_term s in
  Forall record_or_absent (fetched (trace run)) ->
  In (EProgress 6 6) (trace run) <-> (6 <= length ids)%nat.
Proof.
  intros Hout Hids run Hall. subst run.
  pose proof (display_pace search_term s ids Hout Hids Hall) as Hpace.
  rewrite <- list_elem_of_In.
  assert (Hin : EProgress 6 6 ∈ trace (display_artworks search_term s)
                <-> Progress 6 6 ∈ omap pace_of (trace (display_artworks search_term s))).
  { rewrite list_elem_of_omap. split.
    - intros H. exists (EProgress 6 6). split; [exact H | reflexivity].
    - intros (e & He & Hp).
      destruct e as [?|[]| | | | | | | | | | | | | | | | | | | |];
        cbn in Hp; try discriminate. injection Hp as -> ->. exact He. }
  rewrite Hin, Hpace, elem_of_cons, schedule_progress, length_take.
  split.
  - intros [H|[_ H]]; [discriminate H | lia].
  - intros H. right. lia.
Qed.

Lemma progress_full_iff_six_witness :
  (In (EProgress 6 6) (trace (display_artworks "garden" sample_state)) <-> (6 <= 8)%nat)
  /\ (In (EProgress 6 6) (trace (display_artworks "flower" sample_state)) <-> (6 <= 3)%nat).
Proof.
  split.
  - refine (progress_full_iff_six "garden" sample_state
              [PInt 1; PInt 2; PInt 3; PInt 4; PInt 5; PInt 6; PInt 7; PInt 8] _ _ _).
    + reflexivity.
    + discriminate.
    + vm_compute. repeat constructor.
  - refine (progress_full_iff_six "flower" sample_state [PInt 1; PInt 2; PInt 3] _ _ _).
    + reflexivity.
    + discriminate.
    + vm_compute. repeat constructor.
Defined.

(** ** What is drawn for an artwork *)

(** X12: the images drawn are those of the fetched records that have an
    image, in the order they were fetched and up to the first one that
    [st.image] refuses, each with the record's title as caption ("Untitled"
    when the record has no title); every image but the last of the kept
    records is followed by a rule.  The run ends without an exception
    exactly when [st.image] refuses none of them, and then draws them all. *)
Theorem images_of_kept_records search_term s ids :
  outcome (search_met_artworks search_term 20 s) = Ok (PList ids) ->
  ids <> [] ->
  let run := display_artworks search_term s in
  Forall record_or_absent (fetched (trace run)) ->
  let kept := List.filter has_image (fetched (trace run)) in
  images (trace run) = map portrait (drawn (image_error s) kept)
  /\ rules (trace run)
     = replicate (Nat.min (length (drawn (image_error s) kept)) (length kept - 1)) "---"
  /\ (outcome run = Ok tt <-> drawn (image_error s) kept = kept)
  /\ (outcome run = Ok tt ->
      images (trace run) = map portrait kept
      /\ rules (trace run) = replicate (length kept - 1) "---").
Proof.
  intros Hout Hids run Hall kept. subst run kept.
  destruct (display_images search_term s ids Hout Hids Hall) as (Hi & Hr & Ho).
  cbv zeta in *. split; [exact Hi|]. split; [exact Hr|]. split; [exact Ho|].
  intros Hok. apply Ho in Hok. rewrite Hi, Hr, Hok. split; [reflexivity|].
  f_equal. lia.
Qed.

Lemma images_of_kept_records_witness :
  (images (trace (display_artworks "other" edge_state))
     = [(PStr "https://images.metmuseum.org/rose.jpg", PStr "Roses");
        (PStr "https://images.metmuseum.org/iris.jpg", PNone)]
   /\ rules (trace (display_artworks "other" edge_state)) = ["---"])
  /\ (images (trace (display_artworks "local" edge_state))
     = [(PStr "https://images.metmuseum.org/rose.jpg", PStr "Roses")]
   /\ rules (trace (display_artworks "local" edge_state)) = ["---"]
   /\ outcome (display_artworks "local" edge_state)
      = Raise (MediaFileStorageError "rose.jpg")).
Proof.
  split.
  - refine (proj2 (proj2 (proj2
      (images_of_kept_records "other" edge_state [PInt 1; PInt 2; PInt 3] _ _ _))) _).
    + reflexivity.
    + discriminate.
    + vm_compute. repeat constructor.
    + vm_compute. reflexivity.
  - pose proof (images_of_kept_records "local" edge_state [PInt 1; PInt 7; PInt 2])
      as H.
    assert (Hall : Forall record_or_absent
                     (fetched (trace (display_artworks "local" edge_state)))).
    { vm_compute. repeat constructor. }
    destruct (H eq_refl ltac:(discriminate) Hall) as (Hi & Hr & _).
    split; [exact Hi|]. split; [exact Hr|]. vm_compute. reflexivity.
Defined.

(** X13: the text drawn for a record.  When [st.image] refuses the image
    of the record, drawing it raises that exception before any line of text
    is written.  Otherwise drawing it ends; the three lines give the title,
    the artist and the date, with "Unknown Title", "Unknown Artist" and
    "Unknown Date" for a key that is missing, and the value as it is for a
    key that is present, be it empty or [null]; the panel then has one line
    for each of the six optional fields whose value is true in a condition,
    in the fixed order, and none for the others.  In both cases no state is
    changed. *)
Theorem text_of_a_record n i items s :
  let run := render_step n i (PDict items) tt s in
  final run = s
  /\ match refused (image_error s) items with
     | Some e => outcome run = Raise e /\ writes (trace run) = []
     | None =>
         outcome run = Ok tt
         /\ writes (trace run)
            = [[FText "**Title:** ";
                FValue (field_or items "title" (PStr "Unknown Title"))];
               [FText "**Artist:** ";
                FValue (field_or items "artistDisplayName" (PStr "Unknown Artist"))];
               [FText "**Year:** ";
                FValue (field_or items "objectDate" (PStr "Unknown Date"))]]
              ++ omap (detail_line items) optional_fields
     end.
Proof.
  cbv zeta. rewrite render_step_run.
  destruct (refused (image_error s) items) as [e|];
    rewrite outcome_triple, final_triple, trace_triple.
  { repeat split. }
  split; [reflexivity|]. split; [reflexivity|].
  unfold writes, card, picture. rewrite !omap_app.
  assert (Hlines : forall l, omap (fun e => match e with EWrite m => Some m | _ => None end)
                               (map EWrite l) = l).
  { induction l as [|m l IH]; [reflexivity|]. cbn. rewrite IH. reflexivity. }
  rewrite Hlines.
  destruct (py_truthy (field_or items "primaryImage" PNone)), (Z.ltb i (n - 1));
    cbn; rewrite ?app_nil_r; reflexivity.
Qed.

(** ** Runs of the script *)

(** X14: the "Search" button has no effect of its own: a run of the script
    is the same whether it was pressed or not, since both branches that
    look at it take the text of the field. *)
Theorem search_button_is_inert flower bird text pressed pressed' s :
  main (Widgets flower bird text pressed) s = main (Widgets flower bird text pressed') s.
Proof. rewrite !main_run. reflexivity. Qed.

(** X15: with no preset button pressed, no term pending and an empty text
    field, a run of the script only writes the page: heading, the
    information text and the footer.  It calls neither API function and
    sends no request; of the state it changes only the two keys of the
    preset buttons, [flower_btn] and [chinese_bird_btn], which the buttons
    set to [False] in the session state. *)
Theorem nothing_to_search w s :
  flower_btn w = false -> chinese_bird_btn w = false ->
  session_state s !! "search_term" = None ->
  custom_search w = "" ->
  let s' :=
    set_session_state
      (<["chinese_bird_btn" := PBool false]>
         (<["flower_btn" := PBool false]> (session_state s))) s in
  main w s = (Ok tt, s',
              main_heading ++ trace (display_example_artworks s') ++ main_footer)
  /\ http_gets (trace (main w s)) = []
  /\ search_calls (trace (main w s)) = []
  /\ detail_calls (trace (main w s)) = [].
Proof.
  intros Hflower Hbird Hnone Htext. cbv zeta.
  assert (Hrun : main w s = (Ok tt,
             set_session_state
               (<["chinese_bird_btn" := PBool false]>
                  (<["flower_btn" := PBool false]> (session_state s))) s,
             main_heading ++ trace (display_example_artworks s) ++ main_footer)).
  { rewrite main_run. cbv zeta. unfold presets, chosen_term.
    rewrite Hflower, Hbird.
    assert (Hpending :
      (<["chinese_bird_btn" := PBool false]>
         (<["flower_btn" := PBool false]> (session_state s)) : gmap string pyval)
        !! "search_term" = None).
    { rewrite !lookup_insert_ne by discriminate. exact Hnone. }
    rewrite Hpending, Htext. cbn [nonempty String.eqb negb page py_truthy].
    rewrite (delete_id _ _ Hpending). reflexivity. }
  split; [exact Hrun|]. rewrite Hrun, trace_triple. repeat split.
Qed.

Lemma nothing_to_search_witness :
  main (Widgets false false "" true) sample_state
    = (Ok tt,
       set_session_state
         (<["chinese_bird_btn" := PBool false]>
            (<["flower_btn" := PBool false]> (session_state sample_state))) sample_state,
       main_heading
         ++ trace (display_example_artworks
                     (set_session_state
                        (<["chinese_bird_btn" := PBool false]>
                           (<["flower_btn" := PBool false]> (session_state sample_state)))
                        sample_state))
         ++ main_footer)
  /\ http_gets (trace (main (Widgets false false "" true) sample_state)) = []
  /\ search_calls (trace (main (Widgets false false "" true) sample_state)) = []
  /\ detail_calls (trace (main (Widgets false false "" true) sample_state)) = [].
Proof.
  refine (nothing_to_search (Widgets false false "" true) sample_state _ _ _ _);
    reflexivity.
Defined.

(** X16: after every run of the script, whether it ended or raised, no
    search term is pending in the session state; the keys of the two preset
    buttons, [flower_btn] and [chinese_bird_btn], hold whether each was
    pressed in this run; every other key of the session state is as it was
    before the run. *)
Theorem search_term_never_left_pending w s :
  session_state (final (main w s)) !! "search_term" = None
  /\ session_state (final (main w s)) !! "flower_btn" = Some (PBool (flower_btn w))
  /\ session_state (final (main w s)) !! "chinese_bird_btn"
     = Some (PBool (chinese_bird_btn w))
  /\ (forall key,
        key <> "search_term" -> key <> "flower_btn" -> key <> "chinese_bird_btn" ->
        session_state (final (main w s)) !! key = session_state s !! key).
Proof.
  rewrite main_session. split; [apply lookup_delete_eq|].
  unfold presets. split; [|split].
  - rewrite lookup_delete_ne by discriminate.
    destruct (flower_btn w), (chinese_bird_btn w);
      rewrite ?lookup_insert_ne by discriminate; apply lookup_insert_eq.
  - rewrite lookup_delete_ne by discriminate.
    destruct (flower_btn w), (chinese_bird_btn w);
      rewrite ?(lookup_insert_ne _ "search_term") by discriminate; apply lookup_insert_eq.
  - intros key H1 H2 H3. rewrite lookup_delete_ne by congruence.
    destruct (flower_btn w), (chinese_bird_btn w);
      rewrite !lookup_insert_ne by congruence; reflexivity.
Qed.

(** X17: every run of the driver calls the search exactly once, for the
    term it was given and with the limit 20, also when the run raises
    later on. *)
Theorem driver_searches_once search_term s :
  search_calls (trace (display_artworks search_term s)) = [(search_term, 20)].
Proof. apply display_search_calls. Qed.
